(** * knit: the irqwatch, root and snapproc commands

    A shallow embedding of [cmd/knit/cmd/irqwatch.go] (function [watchIRQs]
    and the four [dumpIrq...] presenters with [countersForCPUs]), of the
    pre-run hook of [cmd/knit/cmd/root.go] and of the snapproc command
    ([makeProcSnapshot] and the functions it calls).

    The package [pkg/irqs] (type [Stats], [ReadStats], [Stats.Clone],
    [Stats.Delta]) is imported by the command but its source is not part of
    the files at hand; what the command needs from it is modelled from the
    specification and marked as such.  [time.ParseDuration], [time.Now], the
    ticker and the signal channel belong to the Go runtime: they are the
    environment of the run ([World] and the list of [event]s). *)

From stdpp Require Import gmap strings list fin_maps.

Local Open Scope Z_scope.

#[local] Set Warnings "-clear-no-such-hyp".

(** ** Data model *)

(** [irqs.Counter]: interrupt-line name to cumulative count. *)
Abbreviation Counter := (gmap string Z).

(** [irqs.Stats]: CPU identifier to [Counter].  A nil Go map reads like the
    empty map, so the zero value of a [Stats] variable is [∅]. *)
Abbreviation Stats := (gmap Z (gmap string Z)).

(** A Go [error] value, identified by its message. *)
Definition error := string.

(** [time.Time] and [time.Duration], in nanoseconds. *)
Definition Time := Z.
Definition Duration := Z.

(** The Go [int] of the flags is 64 bits wide; [iterCount++] wraps. *)
Definition int_min : Z := - 2 ^ 63.
Definition int_max : Z := 2 ^ 63 - 1.
Definition wrap_int (z : Z) : Z := (z + 2 ^ 63) mod 2 ^ 64 - 2 ^ 63.

(** [irqWatchOptions] *)
Record irqWatchOptions := {
  period : string;
  maxRuns : Z;
  verbose : Z
}.

(** The fields of [knitOptions] that the watch command reads.  [cpus] is the
    CPU set through its only use here, [cpus.ToSlice()]. *)
Record knitOptions := {
  cpus : list Z;
  jsonOutput : bool
}.

(** ** The irqs package *)

Module irqs.

(** The raw difference of one counter, clamped at zero. *)
Definition clamp (later earlier : Z) : Z :=
  if later - earlier <? 0 then 0 else later - earlier.

(** Modelled from the spec: the per-CPU part of [Stats.Delta] (package
    pkg/irqs is missing).  For each label of [later] that [earlier] has
    too, the clamped difference; a label that [earlier] lacks is omitted. *)
Definition counterDelta (earlier later : gmap string Z) : gmap string Z :=
  map_imap (fun irq lv =>
              match earlier !! irq with
              | Some ev => Some (clamp lv ev)
              | None => None
              end) later.

(** Modelled from the spec: [Stats.Delta] (package pkg/irqs is missing),
    called as [earlier.Delta(later)].  For each CPU present in [later],
    the [counterDelta] against the same CPU of [earlier]; a CPU that
    [earlier] lacks has no label in common and gets the empty counter. *)
Definition Delta (earlier later : Stats) : Stats :=
  map_imap (fun cpu lc => Some (counterDelta (default ∅ (earlier !! cpu)) lc))
           later.

(** Modelled from the spec: [Stats.Clone] (package pkg/irqs is missing): a
    copy with the same contents.  That the copy is a new object is the
    business of the store, see [alloc] below. *)
Definition Clone (s : Stats) : Stats := s.

End irqs.

(** ** Output records

    Standard output is kept as the list of records written, one per call of
    a presenter; formatting the fields is left out.  A text record is the
    lines its presenter prints: [dumpIrqDeltaText] prints nothing for a
    record without lines, [dumpIrqSummaryText] always prints its header. *)

(** One line [CPU=%d IRQ=%s +%d]. *)
Record line := Line { l_cpu : Z; l_irq : string; l_val : Z }.

Inductive record :=
| DeltaText (ts : Time) (lines : list line)
| SummaryText (on : list Z) (elapsed : Duration) (lines : list line)
| DeltaJSON (ts : Time) (counters : Stats)
| SummaryJSON (elapsed : Duration) (counters : Stats).

Definition is_summary (r : record) : bool :=
  match r with
  | SummaryText _ _ _ | SummaryJSON _ _ => true
  | _ => false
  end.

Definition is_delta (r : record) : bool := negb (is_summary r).

(** The body of [for irqName, val := range counter]: zero values are
    skipped.  Go leaves the order of a map range open; the model takes the
    order of [map_to_list] and the theorems speak of membership only. *)
Definition counterLines (cpuid : Z) (counter : gmap string Z) : list line :=
  omap (fun '(irqName, val) =>
          if val =? 0 then None else Some (Line cpuid irqName val))
       (map_to_list counter).

(** The loop over [cpuids] shared by [dumpIrqDeltaText] and
    [dumpIrqSummaryText]. *)
Fixpoint textLines (cpuids : list Z) (delta : Stats) : list line :=
  match cpuids with
  | [] => []
  | cpuid :: rest =>
      match delta !! cpuid with
      | None => textLines rest delta
      | Some counter => counterLines cpuid counter ++ textLines rest delta
      end
  end.

Definition dumpIrqDeltaText (ts : Time) (prevStats lastStats : Stats)
    (cpus : list Z) : record :=
  let delta := irqs.Delta prevStats lastStats in
  DeltaText ts (textLines cpus delta).

Definition dumpIrqSummaryText (timeDelta : Duration) (prevStats lastStats : Stats)
    (cpus : list Z) : record :=
  let delta := irqs.Delta prevStats lastStats in
  SummaryText cpus timeDelta (textLines cpus delta).

Fixpoint countersForCPUs_loop (cpuids : list Z) (stats res : Stats) : Stats :=
  match cpuids with
  | [] => res
  | cpuid :: rest =>
      match stats !! cpuid with
      | None => countersForCPUs_loop rest stats res
      | Some counter =>
          if decide (size counter = 0%nat)
          then countersForCPUs_loop rest stats res
          else countersForCPUs_loop rest stats (<[cpuid := counter]> res)
      end
  end.

Definition countersForCPUs (cpus : list Z) (stats : Stats) : Stats :=
  countersForCPUs_loop cpus stats ∅.

Definition dumpIrqDeltaJSON (ts : Time) (prevStats lastStats : Stats)
    (cpus : list Z) : record :=
  DeltaJSON ts (countersForCPUs cpus (irqs.Delta prevStats lastStats)).

Definition dumpIrqSummaryJSON (elapsed : Duration) (prevStats lastStats : Stats)
    (cpus : list Z) : record :=
  SummaryJSON elapsed (countersForCPUs cpus (irqs.Delta prevStats lastStats)).

(** An entry of a snapshot, [s[cpu][irq]]. *)
Definition entry (s : Stats) (cpu : Z) (irq : string) : option Z :=
  s !! cpu ≫= (.!! irq).

(** The per-CPU per-IRQ counts a record shows. *)
Definition shows (r : record) (cpu : Z) (irq : string) (val : Z) : Prop :=
  match r with
  | DeltaText _ ls | SummaryText _ _ ls => Line cpu irq val ∈ ls
  | DeltaJSON _ cs | SummaryJSON _ cs => entry cs cpu irq = Some val
  end.

(** ** The store of snapshot objects

    A Go map is a reference: [prevStats = lastStats] makes two variables
    name one object.  The snapshots of a run live in a store, a variable of
    type [irqs.Stats] holds a reference into it, and [None] is the nil map. *)

Abbreviation loc := nat.
Definition ref := option loc.

Definition alloc (h : list Stats) (s : Stats) : list Stats * ref :=
  (h ++ [s], Some (length h)).

Definition deref (h : list Stats) (r : ref) : Stats :=
  match r with
  | None => ∅
  | Some l => default ∅ (h !! l)
  end.

(** ** The environment of a run *)

(** What the run gets from outside: [time.ParseDuration], the result of the
    n-th call of [ih.ReadStats] (counted from 0, the baseline read) and of
    the n-th call of [time.Now]. *)
Record World := {
  ParseDuration : string -> error + Duration;
  ReadStats : nat -> error + Stats;
  Now : nat -> Time
}.

(** What one [select] receives: the interrupt signal from channel [c] or a
    tick, with its time, from [ticker.C]. *)
Inductive event :=
| Interrupt
| Tick (t : Time).

(** ** watchIRQs *)

(** The variables of [watchIRQs], the store, the number of [ReadStats] calls
    made and the records written so far. *)
Record state := State {
  heap : list Stats;
  initStats : ref;
  prevStats : ref;
  lastStats : ref;
  done : bool;
  iterCount : Z;
  nreads : nat;
  out : list record
}.

Definition emit (r : record) (st : state) : state :=
  State (heap st) (initStats st) (prevStats st) (lastStats st) (done st)
        (iterCount st) (nreads st) (out st ++ [r]).

(** Lines 93-99: the per-tick record, behind [opts.verbose >= 2]. *)
Definition dumpDelta (k : knitOptions) (o : irqWatchOptions) (t : Time)
    (st : state) : state :=
  if 2 <=? verbose o then
    if jsonOutput k
    then emit (dumpIrqDeltaJSON t (deref (heap st) (prevStats st))
                 (deref (heap st) (lastStats st)) (cpus k)) st
    else emit (dumpIrqDeltaText t (deref (heap st) (prevStats st))
                 (deref (heap st) (lastStats st)) (cpus k)) st
  else st.

(** Lines 112-118: the summary record, behind [opts.verbose >= 1].
    [time.Now().Sub(initTs)] is the plain difference (the two times of a run
    are never so far apart that [Sub] saturates). *)
Definition dumpSummary (w : World) (k : knitOptions) (o : irqWatchOptions)
    (initTs : Time) (st : state) : state :=
  if 1 <=? verbose o then
    if jsonOutput k
    then emit (dumpIrqSummaryJSON (Now w 1 - initTs) (deref (heap st) (initStats st))
                 (deref (heap st) (lastStats st)) (cpus k)) st
    else emit (dumpIrqSummaryText (Now w 1 - initTs) (deref (heap st) (initStats st))
                 (deref (heap st) (lastStats st)) (cpus k)) st
  else st.

(** Lines 85-101: one [select].  A failed read leaves through [inl], with
    the call counted; [watchIRQs] returns there and reads none of its
    variables again ([lastStats] is left nil, as for a Go function that
    hands back no value beside its error). *)
Definition select (w : World) (k : knitOptions) (o : irqWatchOptions)
    (ev : event) (st : state) : error * state + state :=
  match ev with
  | Interrupt =>
      inr (State (heap st) (initStats st) (prevStats st) (lastStats st) true
                 (iterCount st) (nreads st) (out st))
  | Tick t =>
      match ReadStats w (nreads st) with
      | inl err =>
          inl (err, State (heap st) (initStats st) (prevStats st) None (done st)
                          (iterCount st) (S (nreads st)) (out st))
      | inr s =>
          let '(h, l) := alloc (heap st) s in
          let st1 := State h (initStats st) (prevStats st) l (done st)
                           (iterCount st) (S (nreads st)) (out st) in
          let st2 := dumpDelta k o t st1 in
          inr (State (heap st2) (initStats st2) (lastStats st2) (lastStats st2)
                     (done st2) (iterCount st2) (nreads st2) (out st2))
      end
  end.

Inductive loop_outcome :=
| Failed (err : error) (st : state)
| Exited (st : state)
| Waiting (st : state).

(** Lines 84-110: the [for] loop, run on the events that arrive.  With no
    event left the loop is blocked in [select]. *)
Fixpoint loop (w : World) (k : knitOptions) (o : irqWatchOptions)
    (evs : list event) (st : state) : loop_outcome :=
  match evs with
  | [] => Waiting st
  | ev :: evs' =>
      match select w k o ev st with
      | inl (err, st') => Failed err st'
      | inr st1 =>
          if done st1 then Exited st1
          else if (0 <? maxRuns o) && (maxRuns o <=? iterCount st1) then Exited st1
          else loop w k o evs'
                 (State (heap st1) (initStats st1) (prevStats st1) (lastStats st1)
                        (done st1) (wrap_int (iterCount st1 + 1)) (nreads st1)
                        (out st1))
      end
  end.

(** The state on entry of the loop, after the baseline read [s] (lines
    65-83): [initStats] and its clone [prevStats] are two objects,
    [lastStats] is still nil. *)
Definition enter (s : Stats) : state :=
  let '(h0, init) := alloc [] s in
  let '(h1, prev) := alloc h0 (irqs.Clone (deref h0 init)) in
  State h1 init prev None false 1 1 [].

(** How far a run has got: it has returned, it is in the loop, or it has
    panicked ([time.NewTicker] panics on a period that is not positive). *)
Inductive outcome :=
| Returned (err : option error) (reads : nat) (written : list record)
| Running (st : state)
| Panicked (reads : nat) (written : list record).

(** [watchIRQs], lines 54-120, on the events [evs].  The ticker is made
    (line 81) after the baseline read; [time.NewTicker] panics unless the
    period is positive. *)
Definition watchIRQs (w : World) (k : knitOptions) (o : irqWatchOptions)
    (evs : list event) : outcome :=
  if maxRuns o =? 0 then Returned None 0 []
  else
    match ParseDuration w (period o) with
    | inl err => Returned (Some err) 0 []
    | inr period =>
        let initTs := Now w 0 in
        match ReadStats w 0 with
        | inl err => Returned (Some err) 1 []
        | inr s =>
            if period <=? 0 then Panicked 1 []
            else
              match loop w k o evs (enter s) with
              | Failed err st => Returned (Some err) (nreads st) (out st)
              | Waiting st => Running st
              | Exited st =>
                  let st' := dumpSummary w k o initTs st in
                  Returned None (nreads st') (out st')
              end
        end
    end.

(** ** The loop invariant *)

(** Records written per tick. *)
Definition per_tick (o : irqWatchOptions) : nat :=
  if 2 <=? verbose o then 1%nat else 0%nat.

(** What holds of the state whenever the loop is at a [select] or has just
    left through a [break], for a run whose baseline read was [s0]:
    - [initStats] names the first object of the store, which holds [s0];
    - [prevStats] names another object;
    - [lastStats] is nil before the first tick and afterwards holds the
      result of the latest [ReadStats] call;
    - only per-tick records were written, [per_tick] for each tick. *)
Record Inv (w : World) (o : irqWatchOptions) (s0 : Stats) (st : state) : Prop := {
  inv_init : initStats st = Some 0%nat;
  inv_base : heap st !! 0%nat = Some s0;
  inv_prev : exists l, prevStats st = Some l /\ l <> 0%nat;
  inv_reads : (1 <= nreads st)%nat;
  inv_last :
    if decide (nreads st = 1%nat) then lastStats st = None
    else ReadStats w (pred (nreads st)) = inr (deref (heap st) (lastStats st));
  inv_out : Forall (fun r => is_delta r = true) (out st);
  inv_count : length (out st) = (per_tick o * (nreads st - 1))%nat
}.

(** The summary record of a run of [w], as lines 112-118 write it for the
    endpoints [first] and [last]. *)
Definition summary_record (w : World) (k : knitOptions) (first last : Stats)
    : record :=
  if jsonOutput k
  then dumpIrqSummaryJSON (Now w 1 - Now w 0) first last (cpus k)
  else dumpIrqSummaryText (Now w 1 - Now w 0) first last (cpus k).

(** The state in which the loop was left or stands. *)
Definition final_state (oc : loop_outcome) : state :=
  match oc with
  | Failed _ st | Exited st | Waiting st => st
  end.


(** The records written by an outcome. *)
Definition written_by (oc : outcome) : list record :=
  match oc with
  | Returned _ _ written | Panicked _ written => written
  | Running st => out st
  end.

(** ** Sample runs

    Concrete snapshots, options and environments on which the statements
    below are evaluated. *)

(** CPU 0 has served IRQ 16 ten times. *)
Definition idle : Stats := {[ 0 := {[ "16"%string := 10 ]} ]}.

(** The spec's counter reset: 100 served, then 3. *)
Definition before_reset : Stats := {[ 0 := {[ "16"%string := 100 ]} ]}.
Definition after_reset : Stats := {[ 0 := {[ "16"%string := 3 ]} ]}.

(** [time.ParseDuration] on the two period strings used below: it accepts
    ["1s"] and rejects ["bogus"]. *)
Definition sample_ParseDuration (s : string) : error + Duration :=
  if String.eqb s "1s" then inr 1000000000
  else inl ("time: invalid duration " +:+ s)%string.

(** Every read succeeds and finds the counters unchanged; the run ends five
    seconds after it began. *)
Definition steady_world : World :=
  {| ParseDuration := sample_ParseDuration;
     ReadStats := fun _ => inr idle;
     Now := fun n => Z.of_nat n * 5000000000 |}.

(** The baseline read and the first tick succeed, every later read fails. *)
Definition unplugged_world : World :=
  {| ParseDuration := sample_ParseDuration;
     ReadStats := fun n => if (n <? 2)%nat then inr idle
                           else inl "open /proc/interrupts: no such file"%string;
     Now := fun n => Z.of_nat n * 5000000000 |}.

(** The state of the loop in [unplugged_world] after one tick, at time 1,
    with text output and verbosity 2: three objects in the store, the last
    one named by [prevStats] and [lastStats], one record written. *)
Definition after_one_tick : state :=
  State [idle; idle; idle] (Some 0%nat) (Some 2%nat) (Some 2%nat) false 2 2
        [dumpIrqDeltaText 1 idle idle [0]].

Definition on_cpu0 (json : bool) : knitOptions :=
  {| cpus := [0]; jsonOutput := json |}.

Definition watch (period : string) (maxRuns verbose : Z) : irqWatchOptions :=
  {| period := period; maxRuns := maxRuns; verbose := verbose |}.

(** ** The output of a run, from its environment *)

(** The snapshot that the n-th [ReadStats] call returned. *)
Definition snapshot (w : World) (n : nat) : Stats :=
  match ReadStats w n with
  | inr s => s
  | inl _ => ∅
  end.

(** The per-tick record of lines 93-99 for the tick at [t]. *)
Definition delta_record (k : knitOptions) (t : Time) (prev last : Stats)
    : record :=
  if jsonOutput k
  then dumpIrqDeltaJSON t prev last (cpus k)
  else dumpIrqDeltaText t prev last (cpus k).

(** One per-tick record for each of the leading ticks of [evs], the first
    for the [ReadStats] calls [n] and [n + 1], the next for [n + 1] and
    [n + 2], and so on. *)
Fixpoint tick_records (w : World) (k : knitOptions) (n : nat)
    (evs : list event) : list record :=
  match evs with
  | Tick t :: evs' =>
      delta_record k t (snapshot w n) (snapshot w (S n))
        :: tick_records w k (S n) evs'
  | _ => []
  end.

(** How a run stands, apart from what it wrote. *)
Inductive standing :=
| InLoop
| Finished (err : option error)
| Crashed.

(** What a run did apart from writing: whether it is in the loop, what it
    returned or that it panicked, and the [ReadStats] calls it made. *)
Definition status (oc : outcome) : standing * nat :=
  match oc with
  | Returned err reads _ => (Finished err, reads)
  | Running st => (InLoop, nreads st)
  | Panicked reads _ => (Crashed, reads)
  end.

(** [prevStats] names an object of the store that holds the snapshot of the
    latest [ReadStats] call. *)
Definition prev_is_latest (w : World) (st : state) : Prop :=
  exists l, prevStats st = Some l
            /\ heap st !! l = Some (snapshot w (nreads st - 1)).

(** The successful ticks an outcome of the loop has behind it, for a loop
    that started after [n0] calls of [ReadStats]. *)
Definition ticks_done (n0 : nat) (oc : loop_outcome) : nat :=
  match oc with
  | Failed _ st => (nreads st - n0 - 1)%nat
  | Exited st | Waiting st => (nreads st - n0)%nat
  end.

(** Two states with the same variables and store, whatever was written. *)
Definition same_vars (st st' : state) : Prop :=
  heap st = heap st' /\ initStats st = initStats st' /\
  prevStats st = prevStats st' /\ lastStats st = lastStats st' /\
  done st = done st' /\ iterCount st = iterCount st' /\
  nreads st = nreads st'.

(** An environment in which the counters cannot be read at all. *)
Definition down_world : World :=
  {| ParseDuration := sample_ParseDuration;
     ReadStats := fun _ => inl "open /proc/interrupts: no such file"%string;
     Now := fun n => Z.of_nat n * 5000000000 |}.

(** * The root command and the snapproc command

    [cmd/knit/cmd/root.go] and the snapproc command work on files.  The
    operating system and the Go library are the [Host]: each call of the
    code is logged as an [fsop], and what a call returns is up to the host
    and may depend on everything done before. *)

(** What [ioutil.ReadDir] tells of a directory entry: [Name()], [IsDir()]. *)
Record DirEntry := { Name : string; IsDir : bool }.

(** The calls: [ioutil.TempDir], [os.RemoveAll], [os.MkdirAll],
    [ioutil.ReadDir], [os.Open] and [Close] of the handle it gave (named by
    its path), [ioutil.ReadFile], [ioutil.WriteFile], [snapshot.PackFrom]. *)
Inductive fsop :=
| OpTempDir (dir pattern : string)
| OpRemoveAll (path : string)
| OpMkdirAll (path : string)
| OpReadDir (path : string)
| OpOpen (path : string)
| OpClose (path : string)
| OpReadFile (path : string)
| OpWriteFile (path data : string)
| OpPackFrom (output dir : string).

Record Host := {
  ioutil_TempDir : list fsop -> string -> string -> error + string;
  os_MkdirAll : list fsop -> string -> option error;
  ioutil_ReadDir : list fsop -> string -> error + list DirEntry;
  os_Open : list fsop -> string -> option error;
  ioutil_ReadFile : list fsop -> string -> error + string;
  ioutil_WriteFile : list fsop -> string -> string -> option error;
  snapshot_PackFrom : list fsop -> string -> string -> option error;
  filepath_Join : list string -> string;
  strconv_Atoi : string -> error + Z;
  Sprintf_d : Z -> string;
  Sprintf_q : string -> string;
  strings_TrimSpace : string -> string;
  cpuset_Parse : string -> error + list Z
}.

(** A computation that calls the host: from the calls made so far to its
    result and the calls made after it. *)
Definition IO (A : Type) : Type := list fsop -> A * list fsop.

Definition ret {A : Type} (a : A) : IO A := fun h => (a, h).

Definition bind {A B : Type} (m : IO A) (f : A -> IO B) : IO B :=
  fun h => let '(a, h') := m h in f a h'.

Notation "'let*' x ':=' m 'in' f" := (bind m (fun x => f))
  (at level 10, x name, m at level 100, f at level 200).

Definition call {A : Type} (op : fsop) (result : list fsop -> A) : IO A :=
  fun h => (result h, h ++ [op]).

(** [os.RemoveAll] and [Close] are called for their effect; the code drops
    what they return. *)
Definition removeAll (path : string) : IO unit :=
  call (OpRemoveAll path) (fun _ => tt).

Definition close (path : string) : IO unit :=
  call (OpClose path) (fun _ => tt).

Section host_calls.
Variable host : Host.

Definition tempDir (dir pattern : string) : IO (error + string) :=
  call (OpTempDir dir pattern) (fun h => ioutil_TempDir host h dir pattern).

Definition mkdirAll (path : string) : IO (option error) :=
  call (OpMkdirAll path) (fun h => os_MkdirAll host h path).

Definition readDir (path : string) : IO (error + list DirEntry) :=
  call (OpReadDir path) (fun h => ioutil_ReadDir host h path).

Definition open (path : string) : IO (option error) :=
  call (OpOpen path) (fun h => os_Open host h path).

Definition readFile (path : string) : IO (error + string) :=
  call (OpReadFile path) (fun h => ioutil_ReadFile host h path).

Definition writeFile (path data : string) : IO (option error) :=
  call (OpWriteFile path data) (fun h => ioutil_WriteFile host h path data).

Definition packFrom (output dir : string) : IO (option error) :=
  call (OpPackFrom output dir) (fun h => snapshot_PackFrom host h output dir).

End host_calls.

(** ** root.go *)

Module root.

(** The fields of [knitOptions] that the flags of the root command set. *)
Record flags := {
  cpuList : string;
  procFSRoot : string;
  sysFSRoot : string;
  json : bool;
  debug : bool
}.

(** [knitOpts.log]: to standard error with a prefix, or discarded. *)
Inductive logger :=
| LogStderr (prefix : string)
| LogDiscard.

Section with_host.
Variable host : Host.

Definition getCpuListFromSysfs (sysfsRoot : string) : IO (error + string) :=
  let* r := readFile host
         (filepath_Join host [sysfsRoot; "devices"; "system"; "cpu"; "online"]%string) in
  match r with
  | inl err => ret (inl err)
  | inr data => ret (inr (strings_TrimSpace host data))
  end.

(** [knitOpts] is a pointer: [None] is nil. *)
Definition getCpuList (knitOpts : option flags) : IO (error + string) :=
  match knitOpts with
  | None => ret (inl "nil knitOpts"%string)
  | Some f =>
      if decide (cpuList f <> ""%string) then ret (inr (cpuList f))
      else getCpuListFromSysfs (sysFSRoot f)
  end.

(** [PersistentPreRunE] of the root command: on success the CPU set and the
    logger it stores in [knitOpts]. *)
Definition PersistentPreRunE (f : flags) : IO (error + list Z * logger) :=
  let* r := getCpuList (Some f) in
  match r with
  | inl err => ret (inl ("cannot detect the cpu list: " +:+ err))
  | inr cpuList' =>
      match cpuset_Parse host cpuList' with
      | inl err =>
          ret (inl ("error parsing " +:+ Sprintf_q host (cpuList f) +:+ ": " +:+ err))
      | inr cpus =>
          ret (inr (cpus, if debug f then LogStderr "knit" else LogDiscard))
      end
  end.

End with_host.

End root.

(** ** snapproc *)

Module snapproc.

Record snapProcOptions := {
  cloneDirPath : string;
  output : string
}.

Section with_host.
Variable host : Host.

Definition copyFile (path targetPath : string) : IO (option error) :=
  let* r := readFile host path in
  match r with
  | inl err => ret (Some err)
  | inr buf => writeFile host targetPath buf
  end.

Fixpoint cloneRunnableData (scratchDir baseDir : string) (items : list string)
    : IO (option error) :=
  match items with
  | [] => ret None
  | item :: rest =>
      let* e := mkdirAll host (filepath_Join host [scratchDir; baseDir]) in
      match e with
      | Some err => ret (Some err)
      | None =>
          let path := filepath_Join host [baseDir; item] in
          let* e := copyFile path (filepath_Join host [scratchDir; path]) in
          match e with
          | Some err => ret (Some err)
          | None => cloneRunnableData scratchDir baseDir rest
          end
      end
  end.

(** Lines 124-138: the loop over the entries of the task directory. *)
Fixpoint cloneTasks (scratchDir taskRoot : string) (tidEntries : list DirEntry)
    : IO unit :=
  match tidEntries with
  | [] => ret tt
  | tidEntry :: rest =>
      if negb (IsDir tidEntry) then cloneTasks scratchDir taskRoot rest
      else
        match strconv_Atoi host (Name tidEntry) with
        | inl _ => cloneTasks scratchDir taskRoot rest
        | inr _ =>
            let* _ := cloneRunnableData scratchDir
                   (filepath_Join host [taskRoot; Name tidEntry]) ["status"%string] in
            cloneTasks scratchDir taskRoot rest
        end
  end.

(** Lines 114-140: [cloneProcEntry] between the [Open] and the deferred
    [Close]. *)
Definition cloneProcEntry_body (scratchDir entryDir : string)
    : IO (option error) :=
  let* e := cloneRunnableData scratchDir entryDir ["cmdline"; "status"]%string in
  match e with
  | Some err => ret (Some err)
  | None =>
      let taskRoot := filepath_Join host [entryDir; "task"%string] in
      let* r := readDir host taskRoot in
      match r with
      | inl err => ret (Some err)
      | inr tidEntries =>
          let* _ := cloneTasks scratchDir taskRoot tidEntries in
          ret None
      end
  end.

Definition cloneProcEntry (pid : Z) (procfsRoot scratchDir : string)
    : IO (option error) :=
  let entryDir := filepath_Join host [procfsRoot; Sprintf_d host pid] in
  let handle := filepath_Join host [entryDir; "cmdline"%string] in
  let* e := open host handle in
  match e with
  | Some err => ret (Some err)
  | None =>
      let* r := cloneProcEntry_body scratchDir entryDir in
      let* _ := close handle in
      ret r
  end.

(** Lines 85-100: the loop over the entries of the proc directory. *)
Fixpoint clonePids (procfsRoot scratchDir : string) (pidEntries : list DirEntry)
    : IO unit :=
  match pidEntries with
  | [] => ret tt
  | pidEntry :: rest =>
      if negb (IsDir pidEntry) then clonePids procfsRoot scratchDir rest
      else
        match strconv_Atoi host (Name pidEntry) with
        | inl _ => clonePids procfsRoot scratchDir rest
        | inr pid =>
            let* _ := cloneProcEntry pid procfsRoot scratchDir in
            clonePids procfsRoot scratchDir rest
        end
  end.

Definition cloneProcInto (procfsRoot scratchDir : string) : IO (option error) :=
  let baseDir := filepath_Join host [scratchDir; "proc"%string] in
  let* e := mkdirAll host baseDir in
  match e with
  | Some err => ret (Some err)
  | None =>
      let* r := readDir host procfsRoot in
      match r with
      | inl err => ret (Some err)
      | inr pidEntries =>
          let* _ := clonePids procfsRoot scratchDir pidEntries in
          ret None
      end
  end.

(** Lines 64-68: [makeProcSnapshot] once [scratchDir] is known. *)
Definition snapshotFrom (procFSRoot : string) (opts : snapProcOptions)
    (scratchDir : string) : IO (option error) :=
  let* e := cloneProcInto procFSRoot scratchDir in
  match e with
  | Some err => ret (Some err)
  | None => packFrom host (output opts) scratchDir
  end.

(** [makeProcSnapshot], given [knitOpts.ProcFSRoot].  The deferred
    [os.RemoveAll] runs when the function returns, after [PackFrom]. *)
Definition makeProcSnapshot (procFSRoot : string) (opts : snapProcOptions)
    : IO (option error) :=
  if decide (cloneDirPath opts <> ""%string)
  then snapshotFrom procFSRoot opts (cloneDirPath opts)
  else
    let* r := tempDir host "" "kni-snapproc" in
    match r with
    | inl err => ret (Some err)
    | inr scratchDir =>
        let* e := snapshotFrom procFSRoot opts scratchDir in
        let* _ := removeAll scratchDir in
        ret e
    end.

End with_host.

(** A directory entry that [cloneProcInto] and [cloneProcEntry] look into:
    a directory whose name [strconv.Atoi] accepts. *)
Definition numbered (host : Host) (e : DirEntry) : bool :=
  IsDir e && match strconv_Atoi host (Name e) with inr _ => true | inl _ => false end.

End snapproc.

(** A computation all of whose calls, whatever was done before, are of the
    kind [P]. *)
Definition calls_only {A : Type} (P : fsop -> Prop) (m : IO A) : Prop :=
  forall h, exists t, snd (m h) = h ++ t /\ Forall P t.

(** The calls that cloning into [scratchDir] may make: reads anywhere, a
    directory made or a file written only at [scratchDir] joined with some
    path, and nothing removed, no temporary directory, no archive. *)
Definition clone_call (host : Host) (scratchDir : string) (op : fsop) : Prop :=
  match op with
  | OpReadDir _ | OpOpen _ | OpClose _ | OpReadFile _ => True
  | OpMkdirAll p | OpWriteFile p _ =>
      exists x, p = filepath_Join host [scratchDir; x]
  | OpTempDir _ _ | OpRemoveAll _ | OpPackFrom _ _ => False
  end.

(** Neither [os.Open] nor [Close]. *)
Definition no_handle_call (op : fsop) : Prop :=
  match op with
  | OpOpen _ | OpClose _ => False
  | _ => True
  end.

(** The calls [t], made after the calls [h], write only copies: each
    [WriteFile] comes right after the [ReadFile] of some path, writes what
    that read returned, and writes it to [scratchDir] joined with that
    path. *)
Definition copies (host : Host) (scratchDir : string) (h t : list fsop) : Prop :=
  forall t1 q d t2,
    t = t1 ++ OpWriteFile q d :: t2 ->
    exists t0 p,
      t1 = t0 ++ [OpReadFile p]
      /\ ioutil_ReadFile host (h ++ t0) p = inr d
      /\ q = filepath_Join host [scratchDir; p].

Definition copying {A : Type} (host : Host) (scratchDir : string) (m : IO A)
    : Prop :=
  forall h, exists t, snd (m h) = h ++ t /\ copies host scratchDir h t.

(** ** A sample host

    A machine with one process, of one thread, and four CPUs, on which
    every call succeeds.  Its [filepath.Join] puts a slash between the
    parts; it is used on parts that need no cleaning up. *)
Definition sample_host : Host :=
  {| ioutil_TempDir := fun _ _ _ => inr "/tmp/kni-snapproc1"%string;
     os_MkdirAll := fun _ _ => None;
     ioutil_ReadDir := fun _ p =>
       if String.eqb p "/proc"
       then inr [ {| Name := "1"; IsDir := true |};
                  {| Name := "uptime"; IsDir := false |};
                  {| Name := "net"; IsDir := true |} ]
       else inr [ {| Name := "1"; IsDir := true |} ];
     os_Open := fun _ _ => None;
     ioutil_ReadFile := fun _ p =>
       if String.eqb p "/sys/devices/system/cpu/online"
       then inr ("0-3" +:+ String (Ascii.ascii_of_nat 10) EmptyString)%string
       else inr "init"%string;
     ioutil_WriteFile := fun _ _ _ => None;
     snapshot_PackFrom := fun _ _ _ => None;
     filepath_Join := fun parts => String.concat "/" parts;
     strconv_Atoi := fun s =>
       if String.eqb s "1" then inr 1 else inl "invalid syntax"%string;
     Sprintf_d := fun z => if z =? 1 then "1"%string else "?"%string;
     Sprintf_q := fun s => (String (Ascii.ascii_of_nat 34) s +:+ String (Ascii.ascii_of_nat 34) EmptyString)%string;
     strings_TrimSpace := fun s =>
       if String.eqb s ("0-3" +:+ String (Ascii.ascii_of_nat 10) EmptyString)%string
       then "0-3"%string else s;
     cpuset_Parse := fun s =>
       if String.eqb s "0-3" then inr [0; 1; 2; 3]
       else inl "invalid cpu list"%string |}.

Definition sample_flags (cpuList : string) : root.flags :=
  {| root.cpuList := cpuList; root.procFSRoot := "/proc"; root.sysFSRoot := "/sys";
     root.json := false; root.debug := true |}.

Definition sample_snap (cloneDirPath : string) : snapproc.snapProcOptions :=
  {| snapproc.cloneDirPath := cloneDirPath; snapproc.output := "snapproc.tgz" |}.

(** * Properties *)

(** ** Integers *)

Lemma wrap_int_id (z : Z) : int_min <= z <= int_max -> wrap_int z = z.
Proof.
  unfold wrap_int, int_min, int_max. intros Hz.
  rewrite Z.mod_small by lia. lia.
Qed.

(** ** The delta engine *)

Section delta.
Implicit Types (earlier later : Stats) (cpu : Z) (irq : string).

Lemma clamp_nonneg (a b : Z) : 0 <= irqs.clamp a b.
Proof. unfold irqs.clamp. case_eq (a - b <? 0); lia. Qed.

Lemma clamp_decrease (a b : Z) : a < b -> irqs.clamp a b = 0.
Proof. unfold irqs.clamp. intros Hlt. case_eq (a - b <? 0); lia. Qed.

Lemma counterDelta_lookup (e l : gmap string Z) irq :
  irqs.counterDelta e l !! irq =
    match l !! irq, e !! irq with
    | Some lv, Some ev => Some (irqs.clamp lv ev)
    | _, _ => None
    end.
Proof.
  unfold irqs.counterDelta. rewrite map_lookup_imap.
  destruct (l !! irq); simpl; [|done]. by destruct (e !! irq).
Qed.

Lemma Delta_entry earlier later cpu irq :
  entry (irqs.Delta earlier later) cpu irq =
    match entry later cpu irq, entry earlier cpu irq with
    | Some lv, Some ev => Some (irqs.clamp lv ev)
    | _, _ => None
    end.
Proof.
  unfold entry, irqs.Delta. rewrite map_lookup_imap.
  destruct (later !! cpu) as [lc|]; simpl; [|done].
  rewrite counterDelta_lookup.
  destruct (lc !! irq) as [lv|]; [|done].
  destruct (earlier !! cpu) as [ec|]; simpl; [done|].
  by rewrite lookup_empty.
Qed.

Lemma Delta_empty_r earlier : irqs.Delta earlier ∅ = ∅.
Proof.
  apply map_eq. intros cpu. unfold irqs.Delta.
  by rewrite map_lookup_imap, lookup_empty.
Qed.

End delta.

(** ** The presenters *)

Section presenters.
Implicit Types (cpuids : list Z) (delta stats res : Stats).

Lemma elem_of_counterLines cpuid (counter : gmap string Z) ln :
  ln ∈ counterLines cpuid counter <->
  l_cpu ln = cpuid /\ counter !! l_irq ln = Some (l_val ln) /\ l_val ln <> 0.
Proof.
  unfold counterLines. rewrite list_elem_of_omap. split.
  - intros [[irq v] [Hin Hsome]]. apply elem_of_map_to_list in Hin.
    simpl in Hsome. destruct (Z.eqb_spec v 0); [done|].
    inversion Hsome; subst ln. by simpl.
  - intros (Hc & Hl & Hv). destruct ln as [c i v]. simpl in *. subst c.
    exists (i, v). split; [by apply elem_of_map_to_list|].
    by destruct (Z.eqb_spec v 0).
Qed.

Lemma elem_of_textLines cpuids delta ln :
  ln ∈ textLines cpuids delta <->
  l_cpu ln ∈ cpuids /\ entry delta (l_cpu ln) (l_irq ln) = Some (l_val ln)
  /\ l_val ln <> 0.
Proof.
  unfold entry. induction cpuids as [|c cs IH]; simpl.
  - split; [by intros ?%elem_of_nil | by intros [?%elem_of_nil _]].
  - destruct (delta !! c) as [counter|] eqn:Hc.
    + rewrite elem_of_app, elem_of_counterLines, IH, elem_of_cons. split.
      * intros [(<- & Hl & Hv) | (Hin & Hl & Hv)]; [|by auto].
        rewrite Hc. simpl. by auto.
      * intros ([-> | Hin] & Hl & Hv); [|by auto].
        left. rewrite Hc in Hl. simpl in Hl. by auto.
    + rewrite IH, elem_of_cons. split; [by intuition|].
      intros ([-> | Hin] & Hl & Hv); [|by auto].
      rewrite Hc in Hl. by simpl in Hl.
Qed.

Lemma countersForCPUs_loop_lookup cpuids stats res cpu :
  countersForCPUs_loop cpuids stats res !! cpu =
    match stats !! cpu with
    | Some counter =>
        if decide (cpu ∈ cpuids /\ counter <> ∅) then Some counter
        else res !! cpu
    | None => res !! cpu
    end.
Proof.
  revert res. induction cpuids as [|c cs IH]; intros res; cbn [countersForCPUs_loop].
  - destruct (stats !! cpu); [|done].
    case_decide; [|done]. set_solver.
  - destruct (stats !! c) as [counter|] eqn:Hc.
    + destruct (decide (size counter = 0%nat)) as [Hz|Hnz]; rewrite IH.
      * apply map_size_empty_iff in Hz. subst counter.
        destruct (stats !! cpu) as [cc|] eqn:Hcpu; [|done].
        repeat case_decide; try done; exfalso;
          (destruct (decide (cpu = c)) as [->|?];
           [simplify_eq; tauto | set_solver]).
      * apply map_size_non_empty_iff in Hnz.
        destruct (decide (c = cpu)) as [->|Hne].
        -- rewrite Hc, lookup_insert_eq.
           repeat case_decide; try done; exfalso; set_solver.
        -- rewrite lookup_insert_ne by done.
           destruct (stats !! cpu) as [cc|] eqn:Hcpu; [|done].
           repeat case_decide; try done; exfalso; set_solver.
    + rewrite IH. destruct (stats !! cpu) as [cc|] eqn:Hcpu; [|done].
      repeat case_decide; try done; exfalso;
        (destruct (decide (cpu = c)) as [->|?];
         [simplify_eq | set_solver]).
Qed.

(** [countersForCPUs] keeps the whole counter of every listed CPU that has
    a non-empty one: no value is looked at. *)
Lemma countersForCPUs_entry cpuids stats cpu irq :
  cpu ∈ cpuids ->
  entry (countersForCPUs cpuids stats) cpu irq = entry stats cpu irq.
Proof.
  intros Hin. unfold entry, countersForCPUs.
  rewrite countersForCPUs_loop_lookup.
  destruct (stats !! cpu) as [counter|] eqn:Hc; [|by rewrite lookup_empty].
  case_decide as H; [done|]. rewrite lookup_empty. simpl.
  destruct (decide (counter = ∅)) as [->|]; [by rewrite lookup_empty | tauto].
Qed.

End presenters.

(** ** The loop *)

Section run.
Variables (w : World) (k : knitOptions) (o : irqWatchOptions).

Local Abbreviation Inv := (Inv w o).
Local Abbreviation per_tick := (per_tick o).

Lemma enter_Inv (s0 : Stats) : Inv s0 (enter s0).
Proof.
  split; simpl; try done. by exists 1%nat.
Qed.

Lemma dumpDelta_fields t st :
  let st' := dumpDelta k o t st in
  heap st' = heap st /\ initStats st' = initStats st /\
  prevStats st' = prevStats st /\ lastStats st' = lastStats st /\
  done st' = done st /\ iterCount st' = iterCount st /\
  nreads st' = nreads st /\
  exists rs, out st' = out st ++ rs /\ length rs = per_tick /\
             Forall (fun r => is_delta r = true) rs.
Proof.
  unfold dumpDelta, per_tick. destruct (2 <=? verbose o).
  - destruct (jsonOutput k); simpl; repeat split; eauto.
  - repeat split. exists []. by rewrite app_nil_r.
Qed.

Lemma select_Interrupt st :
  select w k o Interrupt st =
    inr (State (heap st) (initStats st) (prevStats st) (lastStats st) true
               (iterCount st) (nreads st) (out st)).
Proof. done. Qed.

(** A tick whose read succeeds: one more [ReadStats] call, one more
    object, named by both [lastStats] and [prevStats] afterwards. *)
Lemma select_Tick_ok t st s :
  ReadStats w (nreads st) = inr s ->
  exists st1 rs,
    select w k o (Tick t) st = inr st1 /\
    heap st1 = heap st ++ [s] /\ initStats st1 = initStats st /\
    prevStats st1 = Some (length (heap st)) /\
    lastStats st1 = Some (length (heap st)) /\
    done st1 = done st /\ iterCount st1 = iterCount st /\
    nreads st1 = S (nreads st) /\
    out st1 = out st ++ rs /\ length rs = per_tick /\
    Forall (fun r => is_delta r = true) rs.
Proof.
  intros Hr. unfold select. rewrite Hr. unfold alloc.
  set (st1 := State (heap st ++ [s]) _ _ _ _ _ _ _).
  destruct (dumpDelta_fields t st1)
    as (Hh & Hi & Hp & Hl & Hd & Hc & Hn & rs & Ho & Hlen & Hrs).
  eexists _, rs. split; [done|].
  cbn [heap initStats prevStats lastStats done iterCount nreads out].
  rewrite Hh, Hi, Hl, Hd, Hc, Hn, Ho. done.
Qed.

Lemma select_Tick_fail t st e :
  ReadStats w (nreads st) = inl e ->
  exists st', select w k o (Tick t) st = inl (e, st') /\
              nreads st' = S (nreads st) /\ out st' = out st /\
              heap st' = heap st /\ initStats st' = initStats st /\
              prevStats st' = prevStats st.
Proof. intros Hr. unfold select. rewrite Hr. by eexists. Qed.

Lemma select_Inv s0 ev st st1 :
  Inv s0 st -> select w k o ev st = inr st1 -> Inv s0 st1.
Proof.
  intros [Hi Hb Hp Hn Hl Ho Hc] Hsel. destruct ev as [|t].
  - rewrite select_Interrupt in Hsel. injection Hsel as <-. by split.
  - destruct (ReadStats w (nreads st)) as [e|s] eqn:Hr.
    + destruct (select_Tick_fail t st e Hr) as (? & Hsel' & _). congruence.
    + destruct (select_Tick_ok t st s Hr)
        as (st' & rs & Hsel' & Hh' & Hi' & Hp' & Hl' & _ & _ & Hn' & Ho' & Hlen & Hrs).
      assert (st' = st1) by congruence. subst st'.
      assert (length (heap st) <> 0%nat) as Hne.
      { apply lookup_lt_Some in Hb. lia. }
      split.
      * congruence.
      * rewrite Hh'. by apply lookup_app_l_Some.
      * by exists (length (heap st)).
      * lia.
      * clear Hl. rewrite Hn'. case_decide; [lia|]. simpl.
        rewrite Hr, Hh', Hl'. simpl. by rewrite list_lookup_middle.
      * rewrite Ho'. by apply Forall_app.
      * rewrite Ho', length_app, Hc, Hlen, Hn'.
        unfold per_tick. destruct (2 <=? verbose o); lia.
Qed.

Lemma bump_Inv s0 st d i :
  Inv s0 st ->
  Inv s0 (State (heap st) (initStats st) (prevStats st) (lastStats st) d i
                (nreads st) (out st)).
Proof. intros []. by split. Qed.

(** Wherever the loop stands, leaves or fails, the invariant held at the
    last [select]; a failure is a failed [ReadStats] call, counted and not
    repeated, with nothing written after it. *)
Lemma loop_Inv s0 evs st :
  Inv s0 st ->
  match loop w k o evs st with
  | Waiting st' | Exited st' => Inv s0 st'
  | Failed e st' =>
      exists st1, Inv s0 st1 /\ ReadStats w (nreads st1) = inl e /\
                  nreads st' = S (nreads st1) /\ out st' = out st1 /\
                  heap st' = heap st1 /\ initStats st' = initStats st1 /\
                  prevStats st' = prevStats st1
  end.
Proof.
  revert st. induction evs as [|ev evs IH]; intros st HI; simpl; [done|].
  destruct (select w k o ev st) as [[e st']|st1] eqn:Hsel.
  - destruct ev as [|t]; [by rewrite select_Interrupt in Hsel|].
    destruct (ReadStats w (nreads st)) as [e'|s] eqn:Hr.
    + destruct (select_Tick_fail t st e' Hr) as (st'' & Hsel' & Hn & Ho & Hh).
      assert (e' = e /\ st'' = st') as [-> ->] by (split; congruence).
      by exists st.
    + destruct (select_Tick_ok t st s Hr) as (? & ? & Hsel' & _). congruence.
  - pose proof (select_Inv s0 ev st st1 HI Hsel) as HI1.
    destruct (done st1); [done|].
    destruct ((0 <? maxRuns o) && (maxRuns o <=? iterCount st1)); [done|].
    apply IH. by apply bump_Inv.
Qed.

(** The loop blocked after [evs1] goes on with [evs2] from where it is. *)
Lemma loop_app evs1 evs2 st st' :
  loop w k o evs1 st = Waiting st' ->
  loop w k o (evs1 ++ evs2) st = loop w k o evs2 st'.
Proof.
  revert st. induction evs1 as [|ev evs1 IH]; intros st; simpl.
  - by intros [= ->].
  - destruct (select w k o ev st) as [[e st'']|st1]; [done|].
    destruct (done st1); [done|].
    destruct ((0 <? maxRuns o) && (maxRuns o <=? iterCount st1)); [done|].
    apply IH.
Qed.

(** A loop that has been left or has failed is not moved by later events. *)
Lemma loop_app_over evs more st :
  (forall st', loop w k o evs st <> Waiting st') ->
  loop w k o (evs ++ more) st = loop w k o evs st.
Proof.
  revert st. induction evs as [|ev evs IH]; intros st Hover; simpl.
  - by destruct (Hover st).
  - simpl in Hover. destruct (select w k o ev st) as [[e st'']|st1]; [done|].
    destruct (done st1); [done|].
    destruct ((0 <? maxRuns o) && (maxRuns o <=? iterCount st1)); [done|].
    by apply IH.
Qed.

End run.

(** ** Counting ticks *)

Section ticks.
Variables (w : World) (k : knitOptions) (o : irqWatchOptions).
Hypothesis reads_ok : forall n, exists s, ReadStats w n = inr s.

(** With no bound on the iterations, ticks alone never end the loop. *)
Lemma loop_ticks_unbounded ts st :
  maxRuns o <= 0 -> done st = false ->
  exists st', loop w k o (Tick <$> ts) st = Waiting st' /\
              nreads st' = (nreads st + length ts)%nat /\ done st' = false.
Proof.
  intros HN. revert st. induction ts as [|t ts IH]; intros st Hd.
  - exists st. simpl. repeat split; [lia | done].
  - destruct (reads_ok (nreads st)) as [s Hr].
    destruct (select_Tick_ok w k o t st s Hr)
      as (st1 & rs & Hsel & _ & _ & _ & _ & Hd1 & _ & Hn1 & _).
    cbn [fmap list_fmap loop]. rewrite Hsel, Hd1, Hd.
    replace (0 <? maxRuns o) with false by (symmetry; apply Z.ltb_ge; lia).
    cbn [andb]. set (st2 := State _ _ _ _ _ _ _ _).
    destruct (IH st2) as (st' & Hl & Hn & Hd'); [by subst st2; simpl|].
    exists st'. split; [done|]. split; [|done].
    replace (nreads st2) with (S (nreads st)) in Hn by (by subst st2; simpl).
    simpl. lia.
Qed.

(** With a bound, the loop leaves at the tick on which [iterCount] has
    reached it, and not before. *)
Lemma loop_ticks_bounded ts st :
  0 < maxRuns o <= int_max -> done st = false ->
  1 <= iterCount st <= maxRuns o ->
  let need := Z.to_nat (maxRuns o - iterCount st + 1) in
  ((length ts < need)%nat ->
     exists st', loop w k o (Tick <$> ts) st = Waiting st' /\
                 nreads st' = (nreads st + length ts)%nat)
  /\ ((need <= length ts)%nat ->
     exists st', loop w k o (Tick <$> ts) st = Exited st' /\
                 nreads st' = (nreads st + need)%nat).
Proof.
  intros HN. revert st. induction ts as [|t ts IH]; intros st Hd Hi need.
  - split; [|subst need; simpl; lia].
    intros _. exists st. simpl. split; [done | lia].
  - destruct (reads_ok (nreads st)) as [s Hr].
    destruct (select_Tick_ok w k o t st s Hr)
      as (st1 & rs & Hsel & _ & _ & _ & _ & Hd1 & Hc1 & Hn1 & _).
    cbn [fmap list_fmap loop]. rewrite Hsel, Hd1, Hd, Hc1.
    replace (0 <? maxRuns o) with true by (symmetry; apply Z.ltb_lt; lia).
    cbn [andb]. destruct (Z.leb_spec (maxRuns o) (iterCount st)) as [Hge|Hlt].
    + assert (need = 1%nat) as -> by (subst need; lia).
      split; [simpl; lia|]. intros _. exists st1. split; [done | lia].
    + set (st2 := State _ _ _ _ _ _ _ _).
      assert (iterCount st2 = iterCount st + 1) as Hc2.
      { subst st2. simpl. apply wrap_int_id.
        unfold int_min, int_max in *. lia. }
      destruct (IH st2) as [IHw IHe]; [done | lia |].
      rewrite Hc2 in IHw, IHe.
      assert (nreads st2 = S (nreads st)) as Hn2 by done.
      rewrite Hn2 in IHw, IHe. simpl length. split; intros Hlen.
      * destruct IHw as (st' & Hl & Hn); [subst need; lia|].
        exists st'. split; [done | lia].
      * destruct IHe as (st' & Hl & Hn); [subst need; lia|].
        exists st'. split; [done | subst need; lia].
Qed.

End ticks.

(** * The claims *)

(** ** Runs that do not start *)

(** C1, as stated, fails: with a maximum iteration count of 0 and verbosity
    1 the run writes no summary record at all. *)
Lemma maxRuns_zero_writes_no_summary :
  ~ exists reads written r,
      watchIRQs steady_world (on_cpu0 false) (watch "1s" 0 1) [Tick 1; Interrupt]
        = Returned None reads written
      /\ r ∈ written /\ is_summary r = true.
Proof.
  intros (reads & written & r & Hrun & Hin & _).
  vm_compute in Hrun. injection Hrun as <- <-. by apply elem_of_nil in Hin.
Qed.

(** C1, amended: with a maximum iteration count of 0, [watchIRQs] returns
    success at once: no tick, no [ReadStats] call (the baseline read
    included) and no record written, the summary included. *)
Theorem watchIRQs_maxRuns_zero (w : World) (k : knitOptions)
    (o : irqWatchOptions) (evs : list event) :
  maxRuns o = 0 -> watchIRQs w k o evs = Returned None 0 [].
Proof. intros H. unfold watchIRQs. by rewrite H. Qed.

Lemma watchIRQs_maxRuns_zero_witness :
  watchIRQs steady_world (on_cpu0 true) (watch "1s" 0 2) [Tick 1; Tick 2]
    = Returned None 0 [].
Proof. apply watchIRQs_maxRuns_zero. reflexivity. Defined.

(** C4, as stated, fails: with a maximum iteration count of 0 an invalid
    period string is never parsed and the run returns success. *)
Lemma invalid_period_unnoticed_when_maxRuns_zero :
  (exists e, ParseDuration steady_world "bogus" = inl e)
  /\ ~ exists e reads written,
         watchIRQs steady_world (on_cpu0 false) (watch "bogus" 0 1) [Tick 1]
           = Returned (Some e) reads written.
Proof.
  split.
  - eexists. reflexivity.
  - intros (e & reads & written & Hrun). vm_compute in Hrun. discriminate Hrun.
Qed.

(** C4, amended: for every configuration with an invalid sampling-period
    string and a maximum iteration count other than 0, [watchIRQs] fails
    with the parse error and the loop does not start: no baseline read, no
    tick, no summary. *)
Theorem watchIRQs_invalid_period (w : World) (k : knitOptions)
    (o : irqWatchOptions) (evs : list event) (e : error) :
  maxRuns o <> 0 ->
  ParseDuration w (period o) = inl e ->
  watchIRQs w k o evs = Returned (Some e) 0 [].
Proof.
  intros Hmax Hparse. unfold watchIRQs.
  destruct (Z.eqb_spec (maxRuns o) 0) as [|_]; [done|]. by rewrite Hparse.
Qed.

Lemma watchIRQs_invalid_period_witness :
  watchIRQs steady_world (on_cpu0 false) (watch "bogus" (-1) 1) [Tick 1; Interrupt]
    = Returned (Some "time: invalid duration bogus"%string) 0 [].
Proof. apply watchIRQs_invalid_period; [simpl; lia | reflexivity]. Defined.

(** ** The delta engine *)

(** No entry of a delta is negative. *)
Lemma Delta_nonneg (earlier later : Stats) (cpu : Z) (irq : string) (v : Z) :
  entry (irqs.Delta earlier later) cpu irq = Some v -> 0 <= v.
Proof.
  rewrite Delta_entry.
  destruct (entry later cpu irq); [|done]. destruct (entry earlier cpu irq); [|done].
  intros [= <-]. apply clamp_nonneg.
Qed.

(** C8: for an entry present in both snapshots whose counter is lower in
    the later one, [Delta] reports exactly 0. *)
Theorem Delta_decrease_is_zero (earlier later : Stats) (cpu : Z) (irq : string)
    (ev lv : Z) :
  entry earlier cpu irq = Some ev ->
  entry later cpu irq = Some lv ->
  lv < ev ->
  entry (irqs.Delta earlier later) cpu irq = Some 0.
Proof.
  intros He Hl Hlt. rewrite Delta_entry, He, Hl. f_equal.
  by apply clamp_decrease.
Qed.

Lemma Delta_decrease_is_zero_witness :
  entry (irqs.Delta before_reset after_reset) 0 "16" = Some 0.
Proof.
  apply (Delta_decrease_is_zero before_reset after_reset 0 "16" 100 3);
    [reflexivity | reflexivity | lia].
Defined.

(** ** What the records show *)

(** The text records show non-zero counts only, and exactly those of the
    delta on the listed CPUs. *)
Lemma text_record_shows (ts : Time) (elapsed : Duration) (prev last : Stats)
    (cpuids : list Z) (cpu : Z) (irq : string) (v : Z) :
  (shows (dumpIrqDeltaText ts prev last cpuids) cpu irq v <->
     cpu ∈ cpuids /\ entry (irqs.Delta prev last) cpu irq = Some v /\ v <> 0)
  /\ (shows (dumpIrqSummaryText elapsed prev last cpuids) cpu irq v <->
     cpu ∈ cpuids /\ entry (irqs.Delta prev last) cpu irq = Some v /\ v <> 0).
Proof. split; simpl; apply (elem_of_textLines cpuids _ (Line cpu irq v)). Qed.

(** The JSON records show every count of the delta on the listed CPUs,
    whatever its value. *)
Lemma json_record_shows (ts : Time) (elapsed : Duration) (prev last : Stats)
    (cpuids : list Z) (cpu : Z) (irq : string) (v : Z) :
  cpu ∈ cpuids ->
  (shows (dumpIrqDeltaJSON ts prev last cpuids) cpu irq v <->
     entry (irqs.Delta prev last) cpu irq = Some v)
  /\ (shows (dumpIrqSummaryJSON elapsed prev last cpuids) cpu irq v <->
     entry (irqs.Delta prev last) cpu irq = Some v).
Proof.
  intros Hin. simpl.
  pose proof (countersForCPUs_entry cpuids (irqs.Delta prev last) cpu irq Hin) as H.
  unfold entry in *. by rewrite H.
Qed.

(** C3 at its failing input: a run of one tick with JSON output and
    verbosity 2, on an interrupt line that served nothing between the two
    reads.  Both records written show the count 0 for CPU 0, IRQ 16:
    [countersForCPUs] hands a zero count on as it gets it. *)
Theorem json_records_show_zero_count :
  entry (countersForCPUs [0] {[ 0 := {[ "16"%string := 0 ]} ]}) 0 "16" = Some 0
  /\ watchIRQs steady_world (on_cpu0 true) (watch "1s" 1 2) [Tick 7]
    = Returned None 2 [dumpIrqDeltaJSON 7 idle idle [0];
                       dumpIrqSummaryJSON 5000000000 idle idle [0]]
  /\ shows (dumpIrqDeltaJSON 7 idle idle [0]) 0 "16" 0
  /\ shows (dumpIrqSummaryJSON 5000000000 idle idle [0]) 0 "16" 0.
Proof. split; [|split; [|split]]; vm_compute; reflexivity. Qed.

(** C2 at its failing input: the interrupt arrives before the first tick,
    with JSON output.  The summary is computed against the nil [lastStats]
    and is not the one of the baseline against itself. *)
Theorem interrupt_before_first_tick :
  watchIRQs steady_world (on_cpu0 true) (watch "1s" (-1) 1) [Interrupt]
    = Returned None 1 [dumpIrqSummaryJSON 5000000000 idle ∅ [0]]
  /\ dumpIrqSummaryJSON 5000000000 idle ∅ [0]
     <> dumpIrqSummaryJSON 5000000000 idle idle [0]
  /\ shows (dumpIrqSummaryJSON 5000000000 idle idle [0]) 0 "16" 0
  /\ ~ shows (dumpIrqSummaryJSON 5000000000 idle ∅ [0]) 0 "16" 0.
Proof.
  split; [vm_compute; reflexivity|].
  split; [vm_compute; intros H; discriminate H|].
  split; [vm_compute; reflexivity|].
  vm_compute. intros H. discriminate H.
Qed.

(** ** Whole runs *)

Section whole_runs.
Variables (w : World) (k : knitOptions) (o : irqWatchOptions).

Lemma dumpSummary_fields initTs st :
  let st' := dumpSummary w k o initTs st in
  nreads st' = nreads st /\
  out st' = out st ++
    (if 1 <=? verbose o then
       [if jsonOutput k
        then dumpIrqSummaryJSON (Now w 1 - initTs) (deref (heap st) (initStats st))
               (deref (heap st) (lastStats st)) (cpus k)
        else dumpIrqSummaryText (Now w 1 - initTs) (deref (heap st) (initStats st))
               (deref (heap st) (lastStats st)) (cpus k)]
     else []).
Proof.
  unfold dumpSummary. destruct (1 <=? verbose o).
  - by destruct (jsonOutput k).
  - by rewrite app_nil_r.
Qed.

(** A run that is blocked in [select] has read its baseline and stands in
    the loop. *)
Lemma watchIRQs_Running evs st :
  watchIRQs w k o evs = Running st ->
  exists s0, ReadStats w 0 = inr s0 /\ loop w k o evs (enter s0) = Waiting st
             /\ Inv w o s0 st.
Proof.
  unfold watchIRQs. destruct (maxRuns o =? 0); [done|].
  destruct (ParseDuration w (period o)); [done|].
  destruct (ReadStats w 0) as [|s0]; [done|].
  destruct (_ <=? 0); [done|].
  pose proof (loop_Inv w k o s0 evs (enter s0) (enter_Inv w o s0)) as HI.
  destruct (loop w k o evs (enter s0)) as [| |st'] eqn:Hl; try done.
  intros [= ->]. by exists s0.
Qed.

(** A run that returns success, other than the no-op of [maxRuns = 0], has
    left the loop through a [break] and then reached the summary. *)
Lemma watchIRQs_Returned_ok evs reads written :
  maxRuns o <> 0 ->
  watchIRQs w k o evs = Returned None reads written ->
  exists s0 st, ReadStats w 0 = inr s0 /\ loop w k o evs (enter s0) = Exited st
                /\ Inv w o s0 st /\ reads = nreads st
                /\ written = out st ++
                     (if 1 <=? verbose o
                      then [summary_record w k s0 (deref (heap st) (lastStats st))]
                      else []).
Proof.
  intros Hmax. unfold watchIRQs.
  destruct (Z.eqb_spec (maxRuns o) 0) as [|_]; [done|].
  destruct (ParseDuration w (period o)); [done|].
  destruct (ReadStats w 0) as [|s0]; [done|].
  destruct (_ <=? 0); [done|].
  pose proof (loop_Inv w k o s0 evs (enter s0) (enter_Inv w o s0)) as HI.
  destruct (loop w k o evs (enter s0)) as [|st|] eqn:Hl; try done.
  destruct (dumpSummary_fields (Now w 0) st) as [Hn Ho].
  rewrite Hn, Ho. intros [= <- <-]. exists s0, st.
  split; [done|]. split; [done|]. split; [done|]. split; [done|].
  assert (deref (heap st) (initStats st) = s0) as ->; [|done].
  rewrite (inv_init _ _ _ _ HI). cbn [deref]. by rewrite (inv_base _ _ _ _ HI).
Qed.

(** A run that returns an error failed to parse the period, to read the
    baseline, or to read at a tick. *)
Lemma watchIRQs_Returned_error evs e reads written :
  watchIRQs w k o evs = Returned (Some e) reads written ->
  (written = [] /\ (reads <= 1)%nat)
  \/ exists s0 st, Inv w o s0 st /\ ReadStats w (nreads st) = inl e
                   /\ reads = S (nreads st) /\ written = out st.
Proof.
  unfold watchIRQs. destruct (maxRuns o =? 0); [done|].
  destruct (ParseDuration w (period o)).
  { intros [= _ <- <-]. left. split; [done | lia]. }
  destruct (ReadStats w 0) as [|s0].
  { intros [= _ <- <-]. left. split; [done | lia]. }
  destruct (_ <=? 0); [done|].
  pose proof (loop_Inv w k o s0 evs (enter s0) (enter_Inv w o s0)) as HI.
  destruct (loop w k o evs (enter s0)) as [e' st'|st|] eqn:Hl; try done.
  destruct HI as (st1 & HI1 & Hr & Hn & Ho & _).
  intros [= -> <- <-]. right. by exists s0, st1.
Qed.



End whole_runs.

(** ** A read that fails during the run *)

(** C5: wherever the loop stands, if the [ReadStats] call of the next tick
    fails, [watchIRQs] returns that error.  The failed call is counted once
    and no other follows, whatever events were still to come; what was
    written is what the earlier ticks wrote, and holds no summary record. *)
Theorem read_failure_aborts (w : World) (k : knitOptions) (o : irqWatchOptions)
    (pre post : list event) (t : Time) (st : state) (e : error) :
  watchIRQs w k o pre = Running st ->
  ReadStats w (nreads st) = inl e ->
  watchIRQs w k o (pre ++ Tick t :: post)
    = Returned (Some e) (S (nreads st)) (out st)
  /\ Forall (fun r => is_summary r = false) (out st).
Proof.
  intros Hrun Hfail.
  destruct (watchIRQs_Running w k o pre st Hrun) as (s0 & Hr0 & Hloop & HI).
  split.
  - revert Hrun. unfold watchIRQs.
    destruct (maxRuns o =? 0); [done|].
    destruct (ParseDuration w (period o)); [done|].
    rewrite Hr0. destruct (_ <=? 0); [done|]. intros _.
    rewrite (loop_app w k o pre (Tick t :: post) (enter s0) st Hloop).
    destruct (select_Tick_fail w k o t st e Hfail) as (st' & Hsel & Hn & Ho & _).
    cbn [loop]. rewrite Hsel. by rewrite Hn, Ho.
  - eapply Forall_impl; [exact (inv_out _ _ _ _ HI)|].
    intros r. unfold is_delta. by destruct (is_summary r).
Qed.

Lemma read_failure_aborts_witness :
  watchIRQs unplugged_world (on_cpu0 false) (watch "1s" (-1) 2)
    ([Tick 1] ++ Tick 2 :: [Tick 3; Interrupt])
    = Returned (Some "open /proc/interrupts: no such file"%string) 3
               [dumpIrqDeltaText 1 idle idle [0]]
  /\ Forall (fun r => is_summary r = false) [dumpIrqDeltaText 1 idle idle [0]].
Proof.
  apply (read_failure_aborts unplugged_world (on_cpu0 false) (watch "1s" (-1) 2)
           [Tick 1] [Tick 3; Interrupt] 2 after_one_tick);
    vm_compute; reflexivity.
Defined.

(** ** The endpoints of the summary *)

(** C6, as the code has it: a run that leaves the loop, with verbosity at
    least 1, ends its output with the summary of the baseline against
    [lastStats].  After at least one tick that is the snapshot of the latest
    [ReadStats] call; with no tick before the exit ([reads = 1], only the
    baseline was read) it is the nil map, not the baseline. *)
Theorem summary_endpoints (w : World) (k : knitOptions) (o : irqWatchOptions)
    (evs : list event) (s0 : Stats) (reads : nat) (written : list record) :
  maxRuns o <> 0 ->
  1 <= verbose o ->
  ReadStats w 0 = inr s0 ->
  watchIRQs w k o evs = Returned None reads written ->
  exists deltas last,
    written = deltas ++ [summary_record w k s0 last]
    /\ Forall (fun r => is_delta r = true) deltas
    /\ if decide (reads = 1%nat) then last = ∅
       else ReadStats w (pred reads) = inr last.
Proof.
  intros Hmax Hv Hr0 Hrun.
  destruct (watchIRQs_Returned_ok w k o evs reads written Hmax Hrun)
    as (s0' & st & Hr0' & _ & HI & -> & ->).
  assert (s0' = s0) as -> by congruence.
  exists (out st), (deref (heap st) (lastStats st)).
  replace (1 <=? verbose o) with true by (symmetry; apply Z.leb_le; lia).
  split; [done|]. split; [exact (inv_out _ _ _ _ HI)|].
  pose proof (inv_last _ _ _ _ HI) as Hl.
  destruct (decide (nreads st = 1%nat)); [by rewrite Hl | done].
Qed.

Lemma summary_endpoints_witness :
  exists deltas last,
    [dumpIrqSummaryJSON 5000000000 idle ∅ [0]]
      = deltas ++ [summary_record steady_world (on_cpu0 true) idle last]
    /\ Forall (fun r => is_delta r = true) deltas
    /\ if decide (1%nat = 1%nat) then last = ∅
       else ReadStats steady_world (pred 1) = inr last.
Proof.
  apply (summary_endpoints steady_world (on_cpu0 true) (watch "1s" (-1) 1)
           [Interrupt] idle 1 [dumpIrqSummaryJSON 5000000000 idle ∅ [0]]);
    [simpl; lia | simpl; lia | reflexivity | vm_compute; reflexivity].
Defined.

(** ** How many ticks *)

(** C7: when the period parses and is positive (the ticker can be made),
    every read succeeds and only ticks arrive,
    a run with maximum iteration count N > 0 is still in the loop as long as
    fewer than N ticks have arrived, and has returned after the N-th, having
    called [ReadStats] N times after the baseline; with N = -1 it is in the
    loop after any number of ticks. *)
Theorem ticks_until_maxRuns (w : World) (k : knitOptions) (o : irqWatchOptions)
    (ts : list Time) :
  (exists p, ParseDuration w (period o) = inr p /\ 0 < p) ->
  (forall n, exists s, ReadStats w n = inr s) ->
  maxRuns o <= int_max ->
  (0 < maxRuns o ->
     (Z.of_nat (length ts) < maxRuns o ->
        exists st, watchIRQs w k o (Tick <$> ts) = Running st
                   /\ nreads st = S (length ts))
     /\ (maxRuns o <= Z.of_nat (length ts) ->
        exists written,
          watchIRQs w k o (Tick <$> ts)
            = Returned None (S (Z.to_nat (maxRuns o))) written))
  /\ (maxRuns o = -1 ->
        exists st, watchIRQs w k o (Tick <$> ts) = Running st
                   /\ nreads st = S (length ts)).
Proof.
  intros (p & Hp & Hp0) Hreads Hmax.
  destruct (Hreads 0%nat) as [s0 Hr0].
  assert ((p <=? 0) = false) as Hticker by (apply Z.leb_gt; lia).
  split.
  - intros Hpos.
    destruct (loop_ticks_bounded w k o Hreads ts (enter s0)) as [Hw He];
      [lia | done | simpl; lia |].
    change (iterCount (enter s0)) with 1 in Hw, He.
    change (nreads (enter s0)) with 1%nat in Hw, He.
    unfold watchIRQs. destruct (Z.eqb_spec (maxRuns o) 0) as [|_]; [lia|].
    rewrite Hp, Hr0, Hticker. split; intros Hlen.
    + destruct Hw as (st & -> & Hn); [lia|]. by exists st.
    + destruct He as (st & -> & Hn); [lia|].
      destruct (dumpSummary_fields w k o (Now w 0) st) as [Hn' _].
      eexists. rewrite Hn', Hn. do 2 f_equal. lia.
  - intros Hm.
    destruct (loop_ticks_unbounded w k o Hreads ts (enter s0)) as (st & Hl & Hn & _);
      [lia | done |].
    unfold watchIRQs. destruct (Z.eqb_spec (maxRuns o) 0) as [|_]; [lia|].
    rewrite Hp, Hr0, Hticker, Hl. by exists st.
Qed.

Lemma ticks_until_maxRuns_witness :
  (exists st, watchIRQs steady_world (on_cpu0 false) (watch "1s" 2 1)
                (Tick <$> [1]) = Running st /\ nreads st = 2%nat)
  /\ (exists written, watchIRQs steady_world (on_cpu0 false) (watch "1s" 2 1)
                        (Tick <$> [1; 2; 3]) = Returned None 3 written)
  /\ (exists st, watchIRQs steady_world (on_cpu0 false) (watch "1s" (-1) 1)
                   (Tick <$> [1; 2; 3]) = Running st /\ nreads st = 4%nat).
Proof.
  assert (exists p, ParseDuration steady_world "1s" = inr p /\ 0 < p) as Hp
    by (eexists; split; [reflexivity | lia]).
  assert (forall n, exists s, ReadStats steady_world n = inr s) as Hr
    by (intros n; eexists; reflexivity).
  split; [|split].
  - destruct (ticks_until_maxRuns steady_world (on_cpu0 false) (watch "1s" 2 1)
                [1] Hp Hr ltac:(vm_compute; discriminate)) as [Hb _].
    apply Hb; simpl; lia.
  - destruct (ticks_until_maxRuns steady_world (on_cpu0 false) (watch "1s" 2 1)
                [1; 2; 3] Hp Hr ltac:(vm_compute; discriminate)) as [Hb _].
    apply Hb; simpl; lia.
  - destruct (ticks_until_maxRuns steady_world (on_cpu0 false) (watch "1s" (-1) 1)
                [1; 2; 3] Hp Hr ltac:(vm_compute; discriminate)) as [_ Hu].
    apply Hu. reflexivity.
Defined.

(** ** The baseline object *)

(** C9: the loop is entered with [prevStats] naming a clone of the baseline,
    an object other than the one [initStats] names; and wherever the loop
    stands, is left or fails, [initStats] still names its first object, that
    object still holds the snapshot of the baseline read, and [prevStats]
    names another object. *)
Theorem baseline_never_mutated (w : World) (k : knitOptions)
    (o : irqWatchOptions) (evs : list event) (s0 : Stats) :
  (prevStats (enter s0) <> initStats (enter s0)
   /\ deref (heap (enter s0)) (prevStats (enter s0)) = s0)
  /\ let st := final_state (loop w k o evs (enter s0)) in
     initStats st = initStats (enter s0)
     /\ deref (heap st) (initStats st) = s0
     /\ prevStats st <> initStats st.
Proof.
  split; [by split|].
  pose proof (loop_Inv w k o s0 evs (enter s0) (enter_Inv w o s0)) as HI.
  assert (forall st, Inv w o s0 st ->
            initStats st = Some 0%nat /\ deref (heap st) (initStats st) = s0
            /\ prevStats st <> initStats st) as Huse.
  { intros st [Hi Hb (l & Hp & Hl) _ _ _ _]. rewrite Hi, Hp.
    cbn [deref]. rewrite Hb. repeat split; try done. congruence. }
  destruct (loop w k o evs (enter s0)) as [e st'|st|st]; cbn [final_state];
    [|by apply Huse..].
  destruct HI as (st1 & HI1 & _ & _ & _ & Hh & Hi & Hp).
  rewrite Hh, Hi, Hp. by apply Huse.
Qed.

(** ** Verbosity *)




(** * Further properties of the watch command *)

(** ** countersForCPUs *)

Lemma countersForCPUs_lookup (cpuids : list Z) (stats : Stats) (cpu : Z) :
  countersForCPUs cpuids stats !! cpu =
    match stats !! cpu with
    | Some counter =>
        if decide (cpu ∈ cpuids /\ counter <> ∅) then Some counter else None
    | None => None
    end.
Proof.
  unfold countersForCPUs. rewrite countersForCPUs_loop_lookup.
  destruct (stats !! cpu); [|done]. by case_decide.
Qed.

(** The result of [countersForCPUs] holds a CPU exactly when the CPU is
    listed and has a non-empty counter in [stats], and then with that very
    counter: no CPU outside the list, no empty counter, nothing changed. *)
Theorem countersForCPUs_spec (cpuids : list Z) (stats : Stats) (cpu : Z)
    (counter : gmap string Z) :
  countersForCPUs cpuids stats !! cpu = Some counter <->
  cpu ∈ cpuids /\ stats !! cpu = Some counter /\ counter <> ∅.
Proof.
  rewrite countersForCPUs_lookup. destruct (stats !! cpu) as [c|].
  - case_decide as H.
    + split; [intros [= ->]; tauto | intros (_ & [= ->] & _); done].
    + split; [done|]. intros (? & [= ->] & ?). tauto.
  - split; [done | by intros (_ & ? & _)].
Qed.

(** Filtering twice by the same CPU list is filtering once. *)
Theorem countersForCPUs_idempotent (cpuids : list Z) (stats : Stats) :
  countersForCPUs cpuids (countersForCPUs cpuids stats)
    = countersForCPUs cpuids stats.
Proof.
  apply map_eq. intros cpu. rewrite !countersForCPUs_lookup.
  destruct (stats !! cpu) as [c|]; [|done].
  case_decide; [|done]. by case_decide.
Qed.

(** Only the set of listed CPUs matters to [countersForCPUs], not their
    order in the slice or their multiplicity. *)
Theorem countersForCPUs_same_cpus (cpuids cpuids' : list Z) (stats : Stats) :
  (forall cpu, cpu ∈ cpuids <-> cpu ∈ cpuids') ->
  countersForCPUs cpuids stats = countersForCPUs cpuids' stats.
Proof.
  intros Hsame. apply map_eq. intros cpu. rewrite !countersForCPUs_lookup.
  destruct (stats !! cpu) as [c|]; [|done].
  repeat case_decide; try done; exfalso; naive_solver.
Qed.

Lemma countersForCPUs_same_cpus_witness :
  countersForCPUs [1; 0; 1] idle = countersForCPUs [0; 1] idle.
Proof. apply countersForCPUs_same_cpus. intros cpu. set_solver. Defined.

(** ** Text and JSON records *)

Lemma json_shows_listed (cpuids : list Z) (stats : Stats) (cpu : Z)
    (irq : string) (v : Z) :
  entry (countersForCPUs cpuids stats) cpu irq = Some v ->
  cpu ∈ cpuids /\ entry stats cpu irq = Some v.
Proof.
  unfold entry. rewrite countersForCPUs_lookup.
  destruct (stats !! cpu) as [c|]; [|done].
  case_decide as H; [|done]. simpl. tauto.
Qed.

(** No presenter shows a count for a CPU outside the CPU set. *)
Theorem records_show_listed_cpus_only (k : knitOptions) (w : World) (t : Time)
    (prev last : Stats) (cpu : Z) (irq : string) (v : Z) :
  shows (delta_record k t prev last) cpu irq v
  \/ shows (summary_record w k prev last) cpu irq v ->
  cpu ∈ cpus k.
Proof.
  unfold delta_record, summary_record.
  destruct (jsonOutput k); simpl; intros [H|H].
  - by apply json_shows_listed in H as [? _].
  - by apply json_shows_listed in H as [? _].
  - by apply (elem_of_textLines _ _ (Line cpu irq v)) in H as [? _].
  - by apply (elem_of_textLines _ _ (Line cpu irq v)) in H as [? _].
Qed.

Lemma records_show_listed_cpus_only_witness : 0 ∈ cpus (on_cpu0 false).
Proof.
  apply (records_show_listed_cpus_only (on_cpu0 false) steady_world 1
           before_reset {[ 0 := {[ "16"%string := 105 ]} ]} 0 "16" 5).
  left. vm_compute. apply list_elem_of_here.
Defined.

(** The text record and the JSON record of the same two snapshots and CPU
    set show the same non-zero counts. *)
Theorem text_and_json_agree_on_nonzero (ts : Time) (elapsed : Duration)
    (prev last : Stats) (cpuids : list Z) (cpu : Z) (irq : string) (v : Z) :
  v <> 0 ->
  (shows (dumpIrqDeltaText ts prev last cpuids) cpu irq v
     <-> shows (dumpIrqDeltaJSON ts prev last cpuids) cpu irq v)
  /\ (shows (dumpIrqSummaryText elapsed prev last cpuids) cpu irq v
     <-> shows (dumpIrqSummaryJSON elapsed prev last cpuids) cpu irq v).
Proof.
  intros Hv.
  assert (Line cpu irq v ∈ textLines cpuids (irqs.Delta prev last) <->
          entry (countersForCPUs cpuids (irqs.Delta prev last)) cpu irq = Some v)
    as H; [|by split].
  rewrite elem_of_textLines. simpl. split.
  - intros (Hin & He & _). by rewrite countersForCPUs_entry.
  - intros [Hin He]%json_shows_listed. done.
Qed.

Lemma text_and_json_agree_on_nonzero_witness :
  (shows (dumpIrqDeltaText 1 after_reset idle [0]) 0 "16" 7
     <-> shows (dumpIrqDeltaJSON 1 after_reset idle [0]) 0 "16" 7)
  /\ (shows (dumpIrqSummaryText 2 after_reset idle [0]) 0 "16" 7
     <-> shows (dumpIrqSummaryJSON 2 after_reset idle [0]) 0 "16" 7).
Proof.
  apply (text_and_json_agree_on_nonzero 1 2 after_reset idle [0] 0 "16" 7). lia.
Defined.

(** ** Runs *)

Section more_runs.
Variables (w : World) (k : knitOptions) (o : irqWatchOptions).

Lemma watchIRQs_app_Running pre more st :
  watchIRQs w k o pre = Running st ->
  exists s0, ReadStats w 0 = inr s0 /\ Inv w o s0 st /\
    watchIRQs w k o (pre ++ more) =
      match loop w k o more st with
      | Failed err st' => Returned (Some err) (nreads st') (out st')
      | Waiting st' => Running st'
      | Exited st' =>
          Returned None (nreads (dumpSummary w k o (Now w 0) st'))
                   (out (dumpSummary w k o (Now w 0) st'))
      end.
Proof.
  intros Hrun.
  destruct (watchIRQs_Running w k o pre st Hrun) as (s0 & Hr0 & Hloop & HI).
  exists s0. split; [done|]. split; [done|].
  revert Hrun. unfold watchIRQs.
  destruct (maxRuns o =? 0); [done|].
  destruct (ParseDuration w (period o)); [done|].
  rewrite Hr0. destruct (_ <=? 0); [done|].
  intros _. by rewrite (loop_app w k o pre more (enter s0) st Hloop).
Qed.

End more_runs.

(** When the baseline read fails, [watchIRQs] returns that error after this
    one [ReadStats] call, without a tick and without a record written. *)
Theorem baseline_read_failure (w : World) (k : knitOptions)
    (o : irqWatchOptions) (evs : list event) (p : Duration) (e : error) :
  maxRuns o <> 0 ->
  ParseDuration w (period o) = inr p ->
  ReadStats w 0 = inl e ->
  watchIRQs w k o evs = Returned (Some e) 1 [].
Proof.
  intros Hmax Hp Hr. unfold watchIRQs.
  destruct (Z.eqb_spec (maxRuns o) 0) as [|_]; [done|]. by rewrite Hp, Hr.
Qed.

Lemma baseline_read_failure_witness :
  watchIRQs down_world (on_cpu0 true) (watch "1s" 3 2) [Tick 1; Tick 2]
    = Returned (Some "open /proc/interrupts: no such file"%string) 1 [].
Proof.
  apply (baseline_read_failure down_world (on_cpu0 true) (watch "1s" 3 2)
           [Tick 1; Tick 2] 1000000000);
    [simpl; lia | reflexivity | reflexivity].
Defined.

(** A run that has returned is not changed by events that arrive later:
    same result, same [ReadStats] calls, same records. *)
Theorem returned_run_is_final (w : World) (k : knitOptions)
    (o : irqWatchOptions) (evs more : list event) (err : option error)
    (reads : nat) (written : list record) :
  watchIRQs w k o evs = Returned err reads written ->
  watchIRQs w k o (evs ++ more) = Returned err reads written.
Proof.
  unfold watchIRQs. destruct (maxRuns o =? 0); [done|].
  destruct (ParseDuration w (period o)); [done|].
  destruct (ReadStats w 0) as [|s0]; [done|].
  destruct (_ <=? 0); [done|].
  destruct (loop w k o evs (enter s0)) as [e st|st|st] eqn:Hl; [| |done];
    rewrite loop_app_over, Hl; congruence.
Qed.

Lemma returned_run_is_final_witness :
  watchIRQs steady_world (on_cpu0 false) (watch "1s" 1 1)
    ([Tick 1] ++ [Tick 2; Interrupt])
    = Returned None 2 [dumpIrqSummaryText 5000000000 idle idle [0]].
Proof.
  apply returned_run_is_final. vm_compute. reflexivity.
Defined.

(** An interrupt ends the run from wherever the loop stands: [watchIRQs]
    returns success without another [ReadStats] call and whatever events
    were still to come; the only record it adds is the summary, if verbosity
    is at least 1, of the baseline against the latest tick's snapshot (the
    nil map if no tick ran). *)
Theorem interrupt_ends_run (w : World) (k : knitOptions) (o : irqWatchOptions)
    (pre post : list event) (st : state) :
  watchIRQs w k o pre = Running st ->
  watchIRQs w k o (pre ++ Interrupt :: post) =
    Returned None (nreads st)
      (out st ++
       if 1 <=? verbose o
       then [summary_record w k (snapshot w 0)
               (if decide (nreads st = 1%nat) then ∅
                else snapshot w (nreads st - 1))]
       else []).
Proof.
  intros Hrun.
  destruct (watchIRQs_app_Running w k o pre (Interrupt :: post) st Hrun)
    as (s0 & Hr0 & HI & ->).
  cbn [loop]. rewrite select_Interrupt. cbn [done].
  set (st1 := State _ _ _ _ true _ _ _).
  destruct (dumpSummary_fields w k o (Now w 0) st1) as [-> ->].
  cbn [nreads out heap initStats lastStats st1]. f_equal. f_equal.
  destruct (1 <=? verbose o); [|done]. f_equal.
  unfold summary_record, snapshot. rewrite Hr0.
  rewrite (inv_init _ _ _ _ HI). cbn [deref]. rewrite (inv_base _ _ _ _ HI).
  pose proof (inv_last _ _ _ _ HI) as Hl.
  destruct (decide (nreads st = 1%nat)) as [H1|H1].
  - by rewrite Hl.
  - replace (nreads st - 1)%nat with (pred (nreads st)) by lia. by rewrite Hl.
Qed.

Lemma interrupt_ends_run_witness :
  watchIRQs unplugged_world (on_cpu0 false) (watch "1s" (-1) 2)
    ([Tick 1] ++ Interrupt :: [Tick 3])
    = Returned None 2
        ([dumpIrqDeltaText 1 idle idle [0]] ++
         [summary_record unplugged_world (on_cpu0 false)
            (snapshot unplugged_world 0) (snapshot unplugged_world 1)]).
Proof.
  apply (interrupt_ends_run unplugged_world (on_cpu0 false) (watch "1s" (-1) 2)
           [Tick 1] [Tick 3] after_one_tick).
  vm_compute. reflexivity.
Defined.

(** ** What the output options do not touch *)

Section same_run.
Variables (w : World) (k k' : knitOptions) (o o' : irqWatchOptions).

Lemma select_same_vars ev st st' :
  same_vars st st' ->
  match select w k o ev st, select w k' o' ev st' with
  | inl (e, s1), inl (e', s1') => e = e' /\ nreads s1 = nreads s1'
  | inr s1, inr s1' => same_vars s1 s1'
  | _, _ => False
  end.
Proof.
  intros (Hh & Hi & Hp & Hl & Hd & Hc & Hn). destruct ev as [|t].
  - rewrite !select_Interrupt. by repeat split.
  - destruct (ReadStats w (nreads st)) as [e|s] eqn:Hr.
    + destruct (select_Tick_fail w k o t st e Hr) as (s1 & -> & Hn1 & _).
      rewrite Hn in Hr.
      destruct (select_Tick_fail w k' o' t st' e Hr) as (s1' & -> & Hn1' & _).
      split; [done | congruence].
    + destruct (select_Tick_ok w k o t st s Hr)
        as (s1 & ? & -> & Hh1 & Hi1 & Hp1 & Hl1 & Hd1 & Hc1 & Hn1 & _).
      rewrite Hn in Hr.
      destruct (select_Tick_ok w k' o' t st' s Hr)
        as (s1' & ? & -> & Hh1' & Hi1' & Hp1' & Hl1' & Hd1' & Hc1' & Hn1' & _).
      repeat split; congruence.
Qed.

Lemma loop_same_vars evs st st' :
  maxRuns o = maxRuns o' ->
  same_vars st st' ->
  match loop w k o evs st, loop w k' o' evs st' with
  | Failed e s1, Failed e' s1' => e = e' /\ nreads s1 = nreads s1'
  | Exited s1, Exited s1' | Waiting s1, Waiting s1' => same_vars s1 s1'
  | _, _ => False
  end.
Proof.
  intros Hmax. revert st st'. induction evs as [|ev evs IH]; intros st st' Hs.
  - done.
  - cbn [loop]. pose proof (select_same_vars ev st st' Hs) as Hsel.
    destruct (select w k o ev st) as [[e s1]|s1],
             (select w k' o' ev st') as [[e' s1']|s1']; try done.
    pose proof Hsel as (Hh & Hi & Hp & Hl & Hd & Hc & Hn).
    rewrite <- Hd, <- Hc, <- Hmax.
    destruct (done s1); [exact Hsel|].
    destruct ((0 <? maxRuns o) && (maxRuns o <=? iterCount s1)); [exact Hsel|].
    apply IH. repeat split; simpl; congruence.
Qed.

End same_run.

(** The output format and the verbosity decide what is written and nothing
    else: two runs in the same environment with the same period and maximum
    iteration count return the same result, or are both still in the loop,
    after the same [ReadStats] calls. *)
Theorem output_options_do_not_steer (w : World) (k k' : knitOptions)
    (o o' : irqWatchOptions) (evs : list event) :
  period o = period o' ->
  maxRuns o = maxRuns o' ->
  status (watchIRQs w k o evs) = status (watchIRQs w k' o' evs).
Proof.
  intros Hp Hm. unfold watchIRQs. rewrite <- Hp, <- Hm.
  destruct (maxRuns o =? 0); [done|].
  destruct (ParseDuration w (period o)); [done|].
  destruct (ReadStats w 0) as [|s0]; [done|].
  destruct (_ <=? 0); [done|].
  pose proof (loop_same_vars w k k' o o' evs (enter s0) (enter s0) Hm) as Hl.
  destruct (loop w k o evs (enter s0)) as [e s1|s1|s1],
           (loop w k' o' evs (enter s0)) as [e' s1'|s1'|s1'];
    try (by destruct Hl; repeat split).
  - destruct Hl as [-> Hn]; [by repeat split|]. simpl. by rewrite Hn.
  - destruct Hl as (_ & _ & _ & _ & _ & _ & Hn); [by repeat split|].
    destruct (dumpSummary_fields w k o (Now w 0) s1) as [-> _].
    destruct (dumpSummary_fields w k' o' (Now w 0) s1') as [-> _].
    simpl. by rewrite Hn.
  - destruct Hl as (_ & _ & _ & _ & _ & _ & Hn); [by repeat split|].
    simpl. by rewrite Hn.
Qed.

Lemma output_options_do_not_steer_witness :
  status (watchIRQs unplugged_world (on_cpu0 false) (watch "1s" 5 0)
            [Tick 1; Tick 2; Tick 3])
  = status (watchIRQs unplugged_world (on_cpu0 true) (watch "1s" 5 2)
              [Tick 1; Tick 2; Tick 3]).
Proof. apply output_options_do_not_steer; reflexivity. Defined.

(** With verbosity below 1 a run writes nothing, however it goes. *)
Theorem quiet_run_writes_nothing (w : World) (k : knitOptions)
    (o : irqWatchOptions) (evs : list event) :
  verbose o < 1 -> written_by (watchIRQs w k o evs) = [].
Proof.
  intros Hv.
  assert (forall s0 st, Inv w o s0 st -> out st = []) as Hquiet.
  { intros s0 st HI. apply length_zero_iff_nil.
    rewrite (inv_count _ _ _ _ HI). unfold per_tick.
    replace (2 <=? verbose o) with false by (symmetry; apply Z.leb_gt; lia).
    lia. }
  unfold watchIRQs. destruct (maxRuns o =? 0); [done|].
  destruct (ParseDuration w (period o)); [done|].
  destruct (ReadStats w 0) as [|s0]; [done|].
  destruct (_ <=? 0); [done|].
  pose proof (loop_Inv w k o s0 evs (enter s0) (enter_Inv w o s0)) as HI.
  destruct (loop w k o evs (enter s0)) as [e st|st|st]; cbn [written_by].
  - destruct HI as (st1 & HI1 & _ & _ & -> & _). by apply (Hquiet s0).
  - destruct (dumpSummary_fields w k o (Now w 0) st) as [_ ->].
    replace (1 <=? verbose o) with false by (symmetry; apply Z.leb_gt; lia).
    rewrite app_nil_r. by apply (Hquiet s0).
  - by apply (Hquiet s0).
Qed.

Lemma quiet_run_writes_nothing_witness :
  written_by (watchIRQs steady_world (on_cpu0 true) (watch "1s" 2 0)
                [Tick 1; Tick 2]) = [].
Proof. apply quiet_run_writes_nothing. simpl. lia. Defined.

(** Every negative maximum iteration count, not only -1, leaves the loop
    unbounded: with a positive period, while only ticks arrive and every
    read succeeds the run stays in the loop, one [ReadStats] call per
    tick. *)
Theorem negative_maxRuns_unbounded (w : World) (k : knitOptions)
    (o : irqWatchOptions) (ts : list Time) :
  maxRuns o < 0 ->
  (exists p, ParseDuration w (period o) = inr p /\ 0 < p) ->
  (forall n, exists s, ReadStats w n = inr s) ->
  exists st, watchIRQs w k o (Tick <$> ts) = Running st
             /\ nreads st = S (length ts).
Proof.
  intros Hneg (p & Hp & Hp0) Hreads. destruct (Hreads 0%nat) as [s0 Hr0].
  destruct (loop_ticks_unbounded w k o Hreads ts (enter s0)) as (st & Hl & Hn & _);
    [lia | done |].
  unfold watchIRQs. destruct (Z.eqb_spec (maxRuns o) 0) as [|_]; [lia|].
  rewrite Hp, Hr0.
  replace (p <=? 0) with false by (symmetry; apply Z.leb_gt; lia).
  rewrite Hl. by exists st.
Qed.

Lemma negative_maxRuns_unbounded_witness :
  exists st, watchIRQs steady_world (on_cpu0 false) (watch "1s" (-7) 1)
               (Tick <$> [1; 2; 3; 4]) = Running st
             /\ nreads st = 5%nat.
Proof.
  apply (negative_maxRuns_unbounded steady_world (on_cpu0 false)
           (watch "1s" (-7) 1) [1; 2; 3; 4]).
  - simpl. lia.
  - eexists. split; [reflexivity | lia].
  - intros n. eexists. reflexivity.
Defined.

(** ** The records of a run, from its environment *)

Section records.
Variables (w : World) (k : knitOptions) (o : irqWatchOptions).
Hypothesis loud : 2 <= verbose o.

(** A tick writes the delta between the latest snapshot and the one it
    reads, and the one it reads is the latest from then on. *)
Lemma select_Tick_record t st s :
  prev_is_latest w st ->
  ReadStats w (nreads st) = inr s ->
  exists st1,
    select w k o (Tick t) st = inr st1
    /\ out st1 = out st ++ [delta_record k t (snapshot w (nreads st - 1))
                                          (snapshot w (nreads st))]
    /\ prev_is_latest w st1.
Proof.
  intros (l & Hp & Hl) Hr. unfold select. rewrite Hr. unfold alloc, dumpDelta.
  replace (2 <=? verbose o) with true by (symmetry; apply Z.leb_le; lia).
  assert (snapshot w (nreads st) = s) as Hs by (unfold snapshot; by rewrite Hr).
  assert (deref (heap st ++ [s]) (prevStats st) = snapshot w (nreads st - 1)) as Hdp.
  { rewrite Hp. cbn [deref]. by rewrite (lookup_app_l_Some _ _ _ _ Hl). }
  assert (deref (heap st ++ [s]) (Some (length (heap st))) = s) as Hdl.
  { cbn [deref]. by rewrite list_lookup_middle. }
  assert (prev_is_latest w
            (State (heap st ++ [s]) (initStats st) (Some (length (heap st)))
                   (Some (length (heap st))) (done st) (iterCount st)
                   (S (nreads st)) [])) as (l' & Hp' & Hl').
  { exists (length (heap st)). split; [done|]. cbn [heap nreads].
    rewrite list_lookup_middle by done.
    replace (S (nreads st) - 1)%nat with (nreads st) by lia. by rewrite Hs. }
  cbn [prevStats heap nreads] in Hp', Hl'.
  unfold delta_record.
  destruct (jsonOutput k); eexists; (split; [reflexivity|]);
    cbn [emit heap initStats prevStats lastStats done iterCount nreads out];
    rewrite Hdp, Hdl, Hs; (split; [done|]); by exists l'.
Qed.

(** What the loop has written when it stands, is left or fails: one delta
    record for each tick whose read succeeded, each between two consecutive
    [ReadStats] calls. *)
Lemma loop_records evs st :
  prev_is_latest w st ->
  (1 <= nreads st)%nat ->
  let oc := loop w k o evs st in
  out (final_state oc)
    = out st ++ tick_records w k (nreads st - 1)
                  (take (ticks_done (nreads st) oc) evs)
  /\ (nreads st <= nreads (final_state oc))%nat
  /\ match oc with
     | Failed _ st' => (nreads st < nreads st')%nat
     | _ => True
     end.
Proof.
  revert st. induction evs as [|ev evs IH]; intros st Hprev Hn; cbn zeta.
  - cbn [loop final_state ticks_done]. rewrite take_nil. cbn [tick_records].
    by rewrite app_nil_r.
  - cbn [loop]. destruct ev as [|t].
    + rewrite select_Interrupt. cbn [done final_state ticks_done nreads out].
      replace (nreads st - nreads st)%nat with 0%nat by lia.
      cbn [take tick_records]. by rewrite app_nil_r.
    + destruct (ReadStats w (nreads st)) as [e|s] eqn:Hr.
      * destruct (select_Tick_fail w k o t st e Hr) as (st' & -> & Hn' & Ho' & _).
        cbn [final_state ticks_done]. rewrite Hn', Ho'.
        replace (S (nreads st) - nreads st - 1)%nat with 0%nat by lia.
        cbn [take tick_records]. rewrite app_nil_r. repeat split; lia.
      * destruct (select_Tick_record t st s Hprev Hr) as (st1 & Hsel & Ho1 & Hprev1).
        destruct (select_Tick_ok w k o t st s Hr)
          as (st1' & _ & Hsel' & _ & _ & _ & _ & _ & _ & Hn1 & _).
        assert (st1' = st1) as -> by congruence. rewrite Hsel.
        assert (forall m,
                  tick_records w k (nreads st - 1) (take (S m) (Tick t :: evs))
                  = delta_record k t (snapshot w (nreads st - 1))
                                     (snapshot w (nreads st))
                    :: tick_records w k (nreads st1 - 1) (take m evs)) as Hstep.
        { intros m. cbn [take tick_records]. rewrite Hn1.
          replace (S (nreads st - 1)) with (nreads st) by lia.
          by replace (S (nreads st) - 1)%nat with (nreads st) by lia. }
        assert (out st1 ++ tick_records w k (nreads st1 - 1) (take 0 evs)
                = out st ++ tick_records w k (nreads st - 1)
                              (take 1 (Tick t :: evs))) as Hexit.
        { rewrite (Hstep 0%nat), Ho1, <- app_assoc. done. }
        destruct (done st1).
        { cbn [final_state ticks_done]. rewrite Hn1.
          replace (S (nreads st) - nreads st)%nat with 1%nat by lia.
          rewrite <- Hexit. cbn [take tick_records].
          rewrite app_nil_r. repeat split; lia. }
        destruct ((0 <? maxRuns o) && (maxRuns o <=? iterCount st1)).
        { cbn [final_state ticks_done]. rewrite Hn1.
          replace (S (nreads st) - nreads st)%nat with 1%nat by lia.
          rewrite <- Hexit. cbn [take tick_records].
          rewrite app_nil_r. repeat split; lia. }
        set (st2 := State _ _ _ _ _ _ _ _).
        destruct (IH st2) as (Hout & Hle & Hlt); [done | simpl; lia |].
        change (nreads st2) with (nreads st1) in Hout, Hle, Hlt.
        change (out st2) with (out st1) in Hout.
        rewrite Hn1 in Hle, Hlt.
        set (oc := loop w k o evs st2) in *.
        assert (ticks_done (nreads st) oc = S (ticks_done (nreads st1) oc)) as ->.
        { rewrite Hn1. destruct oc; cbn [ticks_done final_state] in *; lia. }
        rewrite Hstep, Hout, Ho1, <- app_assoc.
        split; [done|]. split; [lia|]. destruct oc; [lia | done | done].
Qed.

End records.

(** The whole output of a run that returns success with verbosity at least
    2 and a maximum iteration count other than 0: for each tick in turn the delta between the snapshot of the previous
    [ReadStats] call and the one of this tick (the window slides by one
    read, starting from the baseline), then the summary. *)
Theorem run_output (w : World) (k : knitOptions) (o : irqWatchOptions)
    (evs : list event) (reads : nat) (written : list record) :
  2 <= verbose o ->
  maxRuns o <> 0 ->
  watchIRQs w k o evs = Returned None reads written ->
  written =
    tick_records w k 0 (take (reads - 1) evs)
    ++ [summary_record w k (snapshot w 0)
          (if decide (reads = 1%nat) then ∅ else snapshot w (reads - 1))].
Proof.
  intros Hv Hmax Hrun.
  destruct (watchIRQs_Returned_ok w k o evs reads written Hmax Hrun)
    as (s0 & st & Hr0 & Hloop & HI & -> & ->).
  assert (prev_is_latest w (enter s0)) as Hprev.
  { exists 1%nat. split; [done|]. unfold snapshot. simpl. by rewrite Hr0. }
  destruct (loop_records w k o Hv evs (enter s0) Hprev) as (Hout & _); [simpl; lia|].
  rewrite Hloop in Hout. cbn [final_state ticks_done] in Hout.
  change (nreads (enter s0)) with 1%nat in Hout.
  change (out (enter s0)) with (@nil record) in Hout.
  replace (1 - 1)%nat with 0%nat in Hout by lia.
  rewrite Hout. cbn [app].
  replace (1 <=? verbose o) with true by (symmetry; apply Z.leb_le; lia).
  do 3 f_equal.
  - unfold snapshot. by rewrite Hr0.
  - pose proof (inv_last _ _ _ _ HI) as Hl.
    destruct (decide (nreads st = 1%nat)) as [H1|H1]; [by rewrite Hl|].
    unfold snapshot.
    replace (nreads st - 1)%nat with (pred (nreads st)) by lia. by rewrite Hl.
Qed.

Lemma run_output_witness :
  [dumpIrqDeltaJSON 7 idle idle [0]; dumpIrqSummaryJSON 5000000000 idle idle [0]]
  = tick_records steady_world (on_cpu0 true) 0 (take (2 - 1) [Tick 7; Tick 9])
    ++ [summary_record steady_world (on_cpu0 true) (snapshot steady_world 0)
          (if decide (2%nat = 1%nat) then ∅ else snapshot steady_world (2 - 1))].
Proof.
  apply (run_output steady_world (on_cpu0 true) (watch "1s" 1 2) [Tick 7; Tick 9]);
    [simpl; lia | simpl; lia | vm_compute; reflexivity].
Defined.

(** * Properties of the root command and of snapproc *)

(** ** Calls *)

Section calls.
Context {A B : Type}.
Implicit Types (P Q : fsop -> Prop).

Lemma calls_only_ret P (a : A) : calls_only P (ret a).
Proof. intros h. exists []. by rewrite app_nil_r. Qed.

Lemma calls_only_call P (op : fsop) (result : list fsop -> A) :
  P op -> calls_only P (call op result).
Proof. intros HP h. exists [op]. split; [done|]. by constructor. Qed.

Lemma calls_only_bind P (m : IO A) (f : A -> IO B) :
  calls_only P m -> (forall a, calls_only P (f a)) -> calls_only P (bind m f).
Proof.
  intros Hm Hf h. unfold bind. destruct (Hm h) as (t1 & Ht1 & HP1).
  destruct (m h) as [a h1]. simpl in Ht1. subst h1.
  destruct (Hf a (h ++ t1)) as (t2 & Ht2 & HP2).
  exists (t1 ++ t2). rewrite Ht2, app_assoc. split; [done|]. by apply Forall_app.
Qed.

Lemma calls_only_impl P Q (m : IO A) :
  (forall op, P op -> Q op) -> calls_only P m -> calls_only Q m.
Proof.
  intros HPQ Hm h. destruct (Hm h) as (t & Ht & HP).
  exists t. split; [done|]. eapply Forall_impl; eauto.
Qed.

End calls.

(** ** root.go *)

(** With a CPU list given on the command line, [PersistentPreRunE] reads no
    file: the list is parsed as given, and the only possible error is the
    parse error, which quotes the list. *)
Theorem preRun_with_cpulist (host : Host) (f : root.flags) (h : list fsop) :
  root.cpuList f <> ""%string ->
  root.PersistentPreRunE host f h =
    (match cpuset_Parse host (root.cpuList f) with
     | inl err =>
         inl ("error parsing " +:+ Sprintf_q host (root.cpuList f) +:+ ": " +:+ err)
     | inr cpus =>
         inr (cpus, if root.debug f then root.LogStderr "knit" else root.LogDiscard)
     end, h).
Proof.
  intros Hne. unfold root.PersistentPreRunE, root.getCpuList, bind, ret.
  destruct (decide (root.cpuList f <> ""%string)); [|done].
  by destruct (cpuset_Parse host (root.cpuList f)).
Qed.

(** Without a CPU list on the command line, [PersistentPreRunE] makes one
    call, the read of [devices/system/cpu/online] under the sysfs root.  If
    the read fails the error is wrapped; otherwise the content is parsed
    with the white space around it trimmed, and a parse error quotes the
    empty list of the command line, not the content that was parsed. *)
Theorem preRun_without_cpulist (host : Host) (f : root.flags) (h : list fsop) :
  root.cpuList f = ""%string ->
  let online :=
    filepath_Join host [root.sysFSRoot f; "devices"; "system"; "cpu"; "online"]%string in
  root.PersistentPreRunE host f h =
    (match ioutil_ReadFile host h online with
     | inl err => inl ("cannot detect the cpu list: " +:+ err)
     | inr data =>
         match cpuset_Parse host (strings_TrimSpace host data) with
         | inl err => inl ("error parsing " +:+ Sprintf_q host "" +:+ ": " +:+ err)
         | inr cpus =>
             inr (cpus, if root.debug f then root.LogStderr "knit" else root.LogDiscard)
         end
     end, h ++ [OpReadFile online]).
Proof.
  intros He online. unfold root.PersistentPreRunE, root.getCpuList, bind.
  destruct (decide (root.cpuList f <> ""%string)) as [Hne|_]; [done|].
  unfold root.getCpuListFromSysfs, bind, readFile, call, ret. fold online.
  destruct (ioutil_ReadFile host h online) as [err|data]; [done|].
  rewrite He. by destruct (cpuset_Parse host (strings_TrimSpace host data)).
Qed.

(** ** snapproc: what is called *)

Section clone_calls.
Variables (host : Host) (scratchDir : string) (P : fsop -> Prop).
Hypothesis P_ReadFile : forall p, P (OpReadFile p).
Hypothesis P_ReadDir : forall p, P (OpReadDir p).
Hypothesis P_MkdirAll : forall x, P (OpMkdirAll (filepath_Join host [scratchDir; x])).
Hypothesis P_WriteFile :
  forall x d, P (OpWriteFile (filepath_Join host [scratchDir; x]) d).

Lemma copyFile_calls path x :
  calls_only P (snapproc.copyFile host path (filepath_Join host [scratchDir; x])).
Proof.
  apply calls_only_bind; [by apply calls_only_call|].
  intros [err|buf]; [apply calls_only_ret | by apply calls_only_call].
Qed.

Lemma cloneRunnableData_calls baseDir items :
  calls_only P (snapproc.cloneRunnableData host scratchDir baseDir items).
Proof.
  induction items as [|item rest IH]; cbn [snapproc.cloneRunnableData];
    [apply calls_only_ret|].
  apply calls_only_bind; [by apply calls_only_call|].
  intros [err|]; [apply calls_only_ret|].
  apply calls_only_bind; [apply copyFile_calls|].
  intros [err|]; [apply calls_only_ret | apply IH].
Qed.

Lemma cloneTasks_calls taskRoot tidEntries :
  calls_only P (snapproc.cloneTasks host scratchDir taskRoot tidEntries).
Proof.
  induction tidEntries as [|e rest IH]; cbn [snapproc.cloneTasks];
    [apply calls_only_ret|].
  destruct (negb (IsDir e)); [done|].
  destruct (strconv_Atoi host (Name e)); [done|].
  apply calls_only_bind; [apply cloneRunnableData_calls | done].
Qed.

Lemma cloneProcEntry_body_calls entryDir :
  calls_only P (snapproc.cloneProcEntry_body host scratchDir entryDir).
Proof.
  apply calls_only_bind; [apply cloneRunnableData_calls|].
  intros [err|]; [apply calls_only_ret|].
  apply calls_only_bind; [by apply calls_only_call|].
  intros [err|tids]; [apply calls_only_ret|].
  apply calls_only_bind; [apply cloneTasks_calls|].
  intros _. apply calls_only_ret.
Qed.

Hypothesis P_Open : forall p, P (OpOpen p).
Hypothesis P_Close : forall p, P (OpClose p).

Lemma cloneProcEntry_calls pid procfsRoot :
  calls_only P (snapproc.cloneProcEntry host pid procfsRoot scratchDir).
Proof.
  apply calls_only_bind; [by apply calls_only_call|].
  intros [err|]; [apply calls_only_ret|].
  apply calls_only_bind; [apply cloneProcEntry_body_calls|].
  intros r. apply calls_only_bind; [by apply calls_only_call|].
  intros _. apply calls_only_ret.
Qed.

Lemma clonePids_calls procfsRoot pidEntries :
  calls_only P (snapproc.clonePids host procfsRoot scratchDir pidEntries).
Proof.
  induction pidEntries as [|e rest IH]; cbn [snapproc.clonePids];
    [apply calls_only_ret|].
  destruct (negb (IsDir e)); [done|].
  destruct (strconv_Atoi host (Name e)); [done|].
  apply calls_only_bind; [apply cloneProcEntry_calls | done].
Qed.

Lemma cloneProcInto_calls procfsRoot :
  calls_only P (snapproc.cloneProcInto host procfsRoot scratchDir).
Proof.
  apply calls_only_bind; [by apply calls_only_call|].
  intros [err|]; [apply calls_only_ret|].
  apply calls_only_bind; [by apply calls_only_call|].
  intros [err|pids]; [apply calls_only_ret|].
  apply calls_only_bind; [apply clonePids_calls|].
  intros _. apply calls_only_ret.
Qed.

End clone_calls.

(** Whatever the proc directory holds and whatever fails, [cloneProcInto]
    makes directories and writes files only at paths joined onto
    [scratchDir]; it removes nothing, makes no temporary directory and packs
    no archive. *)
Theorem cloneProcInto_stays_in_scratchDir (host : Host)
    (procfsRoot scratchDir : string) :
  calls_only (clone_call host scratchDir)
             (snapproc.cloneProcInto host procfsRoot scratchDir).
Proof. apply cloneProcInto_calls; simpl; eauto. Qed.

(** With a clone path given by the user, [makeProcSnapshot] never removes
    it and makes no temporary directory: its calls are those of cloning
    into that path and the packing of that path into the output. *)
Theorem user_clone_path_is_kept (host : Host) (procFSRoot : string)
    (opts : snapproc.snapProcOptions) :
  snapproc.cloneDirPath opts <> ""%string ->
  calls_only
    (fun op => clone_call host (snapproc.cloneDirPath opts) op
               \/ op = OpPackFrom (snapproc.output opts) (snapproc.cloneDirPath opts))
    (snapproc.makeProcSnapshot host procFSRoot opts).
Proof.
  intros Hne. unfold snapproc.makeProcSnapshot.
  destruct (decide (snapproc.cloneDirPath opts <> ""%string)); [|done].
  apply calls_only_bind.
  - apply cloneProcInto_calls; intros; left; simpl; eauto.
  - intros [err|]; [apply calls_only_ret|]. apply calls_only_call. by right.
Qed.

(** Without a clone path, [makeProcSnapshot] first asks for a temporary
    directory.  If that fails it returns the error and does nothing else.
    Otherwise its last call, whether cloning and packing succeeded or not,
    removes that directory; in between it only clones into it and packs
    it. *)
Theorem temporary_clone_is_removed (host : Host) (procFSRoot : string)
    (opts : snapproc.snapProcOptions) (h : list fsop) :
  snapproc.cloneDirPath opts = ""%string ->
  match ioutil_TempDir host h "" "kni-snapproc" with
  | inl err =>
      snapproc.makeProcSnapshot host procFSRoot opts h
        = (Some err, h ++ [OpTempDir "" "kni-snapproc"])
  | inr scratchDir =>
      exists t,
        snd (snapproc.makeProcSnapshot host procFSRoot opts h)
          = h ++ OpTempDir "" "kni-snapproc" :: t ++ [OpRemoveAll scratchDir]
        /\ Forall (fun op => clone_call host scratchDir op
                             \/ op = OpPackFrom (snapproc.output opts) scratchDir) t
  end.
Proof.
  intros He.
  assert (forall A (x y : IO A),
            (if decide (snapproc.cloneDirPath opts <> ""%string) then x else y) = y)
    as Hif by (intros; by destruct (decide _)).
  destruct (ioutil_TempDir host h "" "kni-snapproc") as [err|scratchDir] eqn:Htmp.
  - unfold snapproc.makeProcSnapshot. rewrite Hif.
    unfold bind, tempDir, call. by rewrite Htmp.
  - assert (calls_only
              (fun op => clone_call host scratchDir op
                         \/ op = OpPackFrom (snapproc.output opts) scratchDir)
              (snapproc.snapshotFrom host procFSRoot opts scratchDir)) as Hbody.
    { apply calls_only_bind.
      - apply cloneProcInto_calls; intros; left; simpl; eauto.
      - intros [err|]; [apply calls_only_ret|]. apply calls_only_call. by right. }
    destruct (Hbody (h ++ [OpTempDir "" "kni-snapproc"])) as (t & Ht & HP).
    exists t. split; [|done].
    unfold snapproc.makeProcSnapshot. rewrite Hif.
    unfold bind, tempDir, call. rewrite Htmp.
    destruct (snapproc.snapshotFrom host procFSRoot opts scratchDir
                (h ++ [OpTempDir "" "kni-snapproc"])) as [e h1].
    simpl in *. subst h1. by rewrite <- !app_assoc.
Qed.

Lemma preRun_with_cpulist_witness :
  root.PersistentPreRunE sample_host (sample_flags "0-3") []
    = (inr ([0; 1; 2; 3], root.LogStderr "knit"), []).
Proof.
  apply (preRun_with_cpulist sample_host (sample_flags "0-3") []). discriminate.
Defined.

Lemma preRun_without_cpulist_witness :
  root.PersistentPreRunE sample_host (sample_flags "") []
    = (inr ([0; 1; 2; 3], root.LogStderr "knit"),
       [OpReadFile "/sys/devices/system/cpu/online"]).
Proof.
  apply (preRun_without_cpulist sample_host (sample_flags "") []). reflexivity.
Defined.

Lemma user_clone_path_is_kept_witness :
  calls_only
    (fun op => clone_call sample_host "/home/me/clone" op
               \/ op = OpPackFrom "snapproc.tgz" "/home/me/clone")
    (snapproc.makeProcSnapshot sample_host "/proc" (sample_snap "/home/me/clone")).
Proof.
  apply (user_clone_path_is_kept sample_host "/proc" (sample_snap "/home/me/clone")).
  discriminate.
Defined.

Lemma temporary_clone_is_removed_witness :
  exists t,
    snd (snapproc.makeProcSnapshot sample_host "/proc" (sample_snap "") [])
      = [] ++ OpTempDir "" "kni-snapproc" :: t ++ [OpRemoveAll "/tmp/kni-snapproc1"]
    /\ Forall (fun op => clone_call sample_host "/tmp/kni-snapproc1" op
                         \/ op = OpPackFrom "snapproc.tgz" "/tmp/kni-snapproc1") t.
Proof.
  apply (temporary_clone_is_removed sample_host "/proc" (sample_snap "") []).
  reflexivity.
Defined.

(** ** snapproc: what fails and what is skipped *)

(** [cloneProcInto] fails only at its start: when the [proc] directory
    under [scratchDir] cannot be made or the proc directory cannot be
    listed.  No failure on an entry (a process gone, a file unreadable, a
    write refused) makes it fail. *)
Theorem cloneProcInto_fails_only_at_start (host : Host)
    (procfsRoot scratchDir : string) (h : list fsop) :
  let baseDir := filepath_Join host [scratchDir; "proc"%string] in
  fst (snapproc.cloneProcInto host procfsRoot scratchDir h) =
    match os_MkdirAll host h baseDir with
    | Some err => Some err
    | None =>
        match ioutil_ReadDir host (h ++ [OpMkdirAll baseDir]) procfsRoot with
        | inl err => Some err
        | inr _ => None
        end
    end.
Proof.
  intros baseDir. unfold snapproc.cloneProcInto. fold baseDir.
  unfold bind, mkdirAll, readDir, call. cbv beta iota zeta.
  destruct (os_MkdirAll host h baseDir); [done|].
  destruct (ioutil_ReadDir host (h ++ [OpMkdirAll baseDir]) procfsRoot); [done|].
  by destruct (snapproc.clonePids _ _ _ _ _).
Qed.

(** [cloneProcEntry] closes the handle it opened: if [os.Open] of the
    [cmdline] file fails, the error is returned and nothing else is done;
    otherwise the last call closes that handle, whatever failed in between,
    and no other handle is opened or closed. *)
Theorem cloneProcEntry_closes_handle (host : Host) (pid : Z)
    (procfsRoot scratchDir : string) (h : list fsop) :
  let handle :=
    filepath_Join host
      [filepath_Join host [procfsRoot; Sprintf_d host pid]; "cmdline"%string] in
  match os_Open host h handle with
  | Some err =>
      snapproc.cloneProcEntry host pid procfsRoot scratchDir h
        = (Some err, h ++ [OpOpen handle])
  | None =>
      exists t,
        snd (snapproc.cloneProcEntry host pid procfsRoot scratchDir h)
          = h ++ OpOpen handle :: t ++ [OpClose handle]
        /\ Forall no_handle_call t
  end.
Proof.
  intros handle.
  set (entryDir := filepath_Join host [procfsRoot; Sprintf_d host pid]) in *.
  destruct (os_Open host h handle) as [err|] eqn:Hopen.
  - unfold snapproc.cloneProcEntry. fold entryDir handle.
    unfold bind, open, call. by rewrite Hopen.
  - destruct (cloneProcEntry_body_calls host scratchDir no_handle_call
                ltac:(done) ltac:(done) ltac:(done) ltac:(done) entryDir
                (h ++ [OpOpen handle])) as (t & Ht & HP).
    exists t. split; [|done].
    unfold snapproc.cloneProcEntry. fold entryDir handle.
    unfold bind, open, call. rewrite Hopen.
    destruct (snapproc.cloneProcEntry_body host scratchDir entryDir
                (h ++ [OpOpen handle])) as [r h1].
    simpl in *. subst h1. by rewrite <- !app_assoc.
Qed.

Section skipping.
Variable host : Host.

Lemma clonePids_filter procfsRoot scratchDir entries :
  snapproc.clonePids host procfsRoot scratchDir entries
  = snapproc.clonePids host procfsRoot scratchDir
      (List.filter (snapproc.numbered host) entries).
Proof.
  induction entries as [|e rest IH]; [done|].
  cbn [snapproc.clonePids List.filter]. unfold snapproc.numbered at 1.
  destruct (IsDir e) eqn:Hd; cbn [negb andb]; [|exact IH].
  destruct (strconv_Atoi host (Name e)) as [err|pid] eqn:Ha; [exact IH|].
  cbn [snapproc.clonePids]. rewrite Ha, Hd. cbn [negb]. by rewrite IH.
Qed.

Lemma cloneTasks_filter scratchDir taskRoot entries :
  snapproc.cloneTasks host scratchDir taskRoot entries
  = snapproc.cloneTasks host scratchDir taskRoot
      (List.filter (snapproc.numbered host) entries).
Proof.
  induction entries as [|e rest IH]; [done|].
  cbn [snapproc.cloneTasks List.filter]. unfold snapproc.numbered at 1.
  destruct (IsDir e) eqn:Hd; cbn [negb andb]; [|exact IH].
  destruct (strconv_Atoi host (Name e)) as [err|pid] eqn:Ha; [exact IH|].
  cbn [snapproc.cloneTasks]. rewrite Ha, Hd. cbn [negb]. by rewrite IH.
Qed.

End skipping.

(** Entries of the proc directory, and of a task directory, that are not
    directories or whose name [strconv.Atoi] rejects are passed over
    without a call: cloning is the same as on the list without them. *)
Theorem clone_passes_over_unnumbered (host : Host)
    (procfsRoot scratchDir taskRoot : string) (entries : list DirEntry) :
  snapproc.clonePids host procfsRoot scratchDir entries
    = snapproc.clonePids host procfsRoot scratchDir
        (List.filter (snapproc.numbered host) entries)
  /\ snapproc.cloneTasks host scratchDir taskRoot entries
    = snapproc.cloneTasks host scratchDir taskRoot
        (List.filter (snapproc.numbered host) entries).
Proof. split; [apply clonePids_filter | apply cloneTasks_filter]. Qed.

(** [cloneRunnableData] takes its items in turn and stops at the first
    that fails: on a longer list it does what it does on the first part
    and, only if that succeeded, goes on with the rest. *)
Theorem cloneRunnableData_stops_at_failure (host : Host)
    (scratchDir baseDir : string) (items rest : list string) (h : list fsop) :
  snapproc.cloneRunnableData host scratchDir baseDir (items ++ rest) h =
    match snapproc.cloneRunnableData host scratchDir baseDir items h with
    | (Some err, h') => (Some err, h')
    | (None, h') => snapproc.cloneRunnableData host scratchDir baseDir rest h'
    end.
Proof.
  revert h. induction items as [|item items IH]; intros h; [done|].
  cbn [app snapproc.cloneRunnableData]. unfold bind.
  destruct (mkdirAll host (filepath_Join host [scratchDir; baseDir]) h)
    as [[err|] h1]; [done|].
  destruct (snapproc.copyFile host _ _ h1) as [[err|] h2]; [done|].
  apply IH.
Qed.

(** ** snapproc: what is written *)

Section copies.
Variables (host : Host) (scratchDir : string).

Lemma copies_nil h : copies host scratchDir h [].
Proof. intros t1 q d t2 H. by destruct t1. Qed.

Lemma copies_one h op :
  (forall q d, op <> OpWriteFile q d) -> copies host scratchDir h [op].
Proof.
  intros Hop t1 q d t2 H. destruct t1 as [|x [|y t1]]; simplify_eq/=.
  by destruct (Hop q d).
Qed.

Lemma copies_copy h p d :
  ioutil_ReadFile host h p = inr d ->
  copies host scratchDir h
    [OpReadFile p; OpWriteFile (filepath_Join host [scratchDir; p]) d].
Proof.
  intros Hr t1 q d' t2 H.
  destruct t1 as [|x [|y [|z t1]]]; simplify_eq/=.
  exists [], p. by rewrite app_nil_r.
Qed.

Lemma copies_app h t t' :
  copies host scratchDir h t -> copies host scratchDir (h ++ t) t' ->
  copies host scratchDir h (t ++ t').
Proof.
  intros H1 H2 t1 q d t2 Heq.
  apply app_eq_inv in Heq as [(k & Ht & Hk) | (k & Ht1 & Ht')].
  - destruct k as [|x k]; simpl in Hk.
    + destruct (H2 [] q d t2 (eq_sym Hk)) as (t0 & p & Hnil & _).
      by destruct t0.
    + injection Hk as <- ->. by apply (H1 t1 q d k).
  - destruct (H2 k q d t2 Ht') as (t0 & p & -> & Hr & ->).
    exists (t ++ t0), p. rewrite Ht1, !app_assoc. split; [done|]. split; [|done].
    by rewrite <- app_assoc in Hr |- *.
Qed.

Lemma copying_ret {A} (a : A) : copying host scratchDir (ret a).
Proof. intros h. exists []. split; [by rewrite app_nil_r | apply copies_nil]. Qed.

Lemma copying_call {A} (op : fsop) (result : list fsop -> A) :
  (forall q d, op <> OpWriteFile q d) ->
  copying host scratchDir (call op result).
Proof. intros Hop h. exists [op]. split; [done | by apply copies_one]. Qed.

Lemma copying_bind {A B} (m : IO A) (f : A -> IO B) :
  copying host scratchDir m -> (forall a, copying host scratchDir (f a)) ->
  copying host scratchDir (bind m f).
Proof.
  intros Hm Hf h. unfold bind. destruct (Hm h) as (t1 & Ht1 & H1).
  destruct (m h) as [a h1]. simpl in Ht1. subst h1.
  destruct (Hf a (h ++ t1)) as (t2 & Ht2 & H2).
  exists (t1 ++ t2). rewrite Ht2, app_assoc. split; [done|]. by apply copies_app.
Qed.

Lemma copyFile_copying path :
  copying host scratchDir
    (snapproc.copyFile host path (filepath_Join host [scratchDir; path])).
Proof.
  intros h. unfold snapproc.copyFile, bind, readFile, writeFile, call.
  destruct (ioutil_ReadFile host h path) as [err|buf] eqn:Hr.
  - exists [OpReadFile path]. split; [done|]. by apply copies_one.
  - eexists. split; [by rewrite <- app_assoc|]. by apply copies_copy.
Qed.

Lemma cloneRunnableData_copying baseDir items :
  copying host scratchDir
    (snapproc.cloneRunnableData host scratchDir baseDir items).
Proof.
  induction items as [|item rest IH]; cbn [snapproc.cloneRunnableData];
    [apply copying_ret|].
  apply copying_bind; [by apply copying_call|].
  intros [err|]; [apply copying_ret|].
  apply copying_bind; [apply copyFile_copying|].
  intros [err|]; [apply copying_ret | apply IH].
Qed.

Lemma cloneTasks_copying taskRoot tidEntries :
  copying host scratchDir
    (snapproc.cloneTasks host scratchDir taskRoot tidEntries).
Proof.
  induction tidEntries as [|e rest IH]; cbn [snapproc.cloneTasks];
    [apply copying_ret|].
  destruct (negb (IsDir e)); [done|].
  destruct (strconv_Atoi host (Name e)); [done|].
  apply copying_bind; [apply cloneRunnableData_copying | done].
Qed.

Lemma cloneProcEntry_copying pid procfsRoot :
  copying host scratchDir
    (snapproc.cloneProcEntry host pid procfsRoot scratchDir).
Proof.
  apply copying_bind; [by apply copying_call|].
  intros [err|]; [apply copying_ret|].
  apply copying_bind.
  - apply copying_bind; [apply cloneRunnableData_copying|].
    intros [err|]; [apply copying_ret|].
    apply copying_bind; [by apply copying_call|].
    intros [err|tids]; [apply copying_ret|].
    apply copying_bind; [apply cloneTasks_copying|].
    intros _. apply copying_ret.
  - intros r. apply copying_bind; [by apply copying_call|].
    intros _. apply copying_ret.
Qed.

Lemma clonePids_copying procfsRoot pidEntries :
  copying host scratchDir
    (snapproc.clonePids host procfsRoot scratchDir pidEntries).
Proof.
  induction pidEntries as [|e rest IH]; cbn [snapproc.clonePids];
    [apply copying_ret|].
  destruct (negb (IsDir e)); [done|].
  destruct (strconv_Atoi host (Name e)); [done|].
  apply copying_bind; [apply cloneProcEntry_copying | done].
Qed.

End copies.

(** Every file that [cloneProcInto] writes is a copy: the write comes right
    after the read of a path, writes the content that this read returned,
    and goes to [scratchDir] joined with the path that was read. *)
Theorem cloneProcInto_writes_copies (host : Host)
    (procfsRoot scratchDir : string) :
  copying host scratchDir (snapproc.cloneProcInto host procfsRoot scratchDir).
Proof.
  apply copying_bind; [by apply copying_call|].
  intros [err|]; [apply copying_ret|].
  apply copying_bind; [by apply copying_call|].
  intros [err|pids]; [apply copying_ret|].
  apply copying_bind; [apply clonePids_copying|].
  intros _. apply copying_ret.
Qed.
